(** * sunburnt/indexer.py: declarative indexers and the reindex protocol

    A shallow embedding of [sunburnt/indexer.py]: the metaclass that merges
    declared fields and [Meta] options along the class hierarchy, the
    transformation of one record into a sparse document, and the chunked
    reindex run with its final delete-by-query.

    Python dictionaries that are shared between classes live in an explicit
    heap of dictionary objects, so that aliasing is visible.  Exceptions are
    results of type [result]; the wall clock is a sequence of readings. *)

From Stdlib Require Import ZArith String Ascii List Lia.
From stdpp Require Import base option gmap strings list fin_maps.

Open Scope Z_scope.
Open Scope string_scope.
Open Scope list_scope.

(** ** Python values and exceptions *)

Inductive exn :=
| AttributeError (msg : string)
| KeyError (key : string)
| Exception (msg : string)
| BackendWriteError (msg : string).

Inductive result (A : Type) :=
| Ok (a : A)
| Raise (e : exn).
Arguments Ok {A} a.
Arguments Raise {A} e.

#[local] Set Warnings "-register-all".

(** Values found in records and documents.  An object carries named
    members; a member is a plain attribute or a zero-argument accessor,
    given by what calling it produces. *)
Inductive value :=
| VNone
| VBool (b : bool)
| VInt (z : Z)
| VStr (s : string)
| VTime (t : Z)
| VList (l : list value)
| VObj (members : list (string * member))
with member :=
| Attr (v : value)
| Method (ret : result value).

(** Python truth value: [if value:]. *)
Definition truthy (v : value) : bool :=
  match v with
  | VNone => false
  | VBool b => b
  | VInt z => negb (Z.eqb z 0)
  | VStr s => negb (String.eqb s "")
  | VTime _ => true
  | VList l => match l with [] => false | _ :: _ => true end
  | VObj _ => true
  end.

(** ** Field declarations *)

(** What [schema.match_field] returns for a known field. *)
Record SolrField := {
  dynamic : bool;
  display_name : string -> string
}.

(** [class Field]: [attribute], [optional], and [solr_field], which is
    [None] until an indexer instance binds it. *)
Record Field := {
  attribute : option string;
  optional : bool;
  solr_field : option SolrField
}.

(** [Field(attribute=None, optional=False)] *)
Definition Field_init (attribute : option string) (optional : bool) : Field :=
  {| attribute := attribute; optional := optional; solr_field := None |}.

(** ** The metaclass *)

Module Meta.

(** Dictionary objects are identified by their address. *)
Definition loc := positive.

Record heap := {
  field_dicts : gmap loc (gmap string Field);
  meta_dicts : gmap loc (gmap string value)
}.

Definition empty_heap : heap := {| field_dicts := ∅; meta_dicts := ∅ |}.

Definition read_fields (h : heap) (l : loc) : gmap string Field :=
  default ∅ (field_dicts h !! l).

Definition read_meta (h : heap) (l : loc) : gmap string value :=
  default ∅ (meta_dicts h !! l).

Definition alloc_fields (d : gmap string Field) (h : heap) : loc * heap :=
  let l := fresh (dom (field_dicts h)) in
  (l, {| field_dicts := <[l := d]> (field_dicts h); meta_dicts := meta_dicts h |}).

Definition alloc_meta (d : gmap string value) (h : heap) : loc * heap :=
  let l := fresh (dom (meta_dicts h)) in
  (l, {| field_dicts := field_dicts h; meta_dicts := <[l := d]> (meta_dicts h) |}).

(** [base_fields.update({field_name: obj})] on the dictionary at [l]. *)
Definition update_field (l : loc) (field_name : string) (f : Field) (h : heap) : heap :=
  {| field_dicts := <[l := <[field_name := f]> (read_fields h l)]> (field_dicts h);
     meta_dicts := meta_dicts h |}.

(** [meta.update(d)] on the dictionary at [l]: keys of [d] win. *)
Definition update_meta (l : loc) (d : gmap string value) (h : heap) : heap :=
  {| field_dicts := field_dicts h;
     meta_dicts := <[l := d ∪ read_meta h l]> (meta_dicts h) |}.

(** A class as the metaclass sees it: whether it is an instance of
    [IndexerMetaclass], and what [getattr(cls, 'base_fields')] and
    [getattr(cls, '_meta')] find (own or inherited), as addresses. *)
Record pyclass := {
  cls_is_indexer : bool;
  cls_base_fields : option loc;
  cls_meta : option loc
}.

(** An attribute of a class body: a [Field] instance, another object with
    a [__dict__] (such as the inner [class Meta]), or a value without one. *)
Inductive attr :=
| AField (f : Field)
| AObject (dict : gmap string value)
| AOther.

(** [getattr(new_class, name, {})] on the temporary class: the attribute
    of the first base that has it. *)
Definition inherited {A} (get : pyclass -> option A) (bases : list pyclass) : option A :=
  head (omap get bases).

(** [dict((x, y) for x, y in obj.__dict__.items() if not x.startswith('__'))] *)
Definition public_items (d : gmap string value) : gmap string value :=
  filter (fun kv => negb (String.prefix "__" (fst kv)) = true) d.

(** The loop over [attrs.items()]. *)
Fixpoint class_body (attrs : list (string * attr)) (base_fields meta : loc) (h : heap)
  : result unit * heap :=
  match attrs with
  | [] => (Ok tt, h)
  | (field_name, obj) :: rest =>
      match obj with
      | AField f => class_body rest base_fields meta (update_field base_fields field_name f h)
      | _ =>
          if String.eqb field_name "Meta" then
            match obj with
            | AObject d =>
                let h' := update_meta meta (public_items d) h in
                match read_meta h' meta !! "type" with
                | None =>
                    (Raise (Exception
                       "Sunburnt indexer requires a type meta to be declared for grouping indices"),
                     h')
                | Some _ => class_body rest base_fields meta h'
                end
            | _ => (Raise (AttributeError "__dict__"), h)
            end
          else class_body rest base_fields meta h
      end
  end.

(** [IndexerMetaclass.__new__(cls, name, bases, attrs)].  The test
    [meta is None] after the loop can never hold ([meta] is a dictionary),
    so it has no counterpart here. *)
Definition new_class (bases : list pyclass) (attrs : list (string * attr)) (h : heap)
  : result pyclass * heap :=
  let inherited_fields := inherited cls_base_fields bases in
  let inherited_meta := inherited cls_meta bases in
  if forallb (fun b => negb (cls_is_indexer b)) bases then
    (Ok {| cls_is_indexer := true;
           cls_base_fields := inherited_fields;
           cls_meta := inherited_meta |}, h)
  else
    let '(base_fields, h1) :=
      match inherited_fields with
      | Some l => (l, h)
      | None => alloc_fields ∅ h
      end in
    let '(meta, h2) :=
      match inherited_meta with
      | Some l => (l, h1)
      | None => alloc_meta ∅ h1
      end in
    match class_body attrs base_fields meta h2 with
    | (Raise e, h3) => (Raise e, h3)
    | (Ok _, h3) =>
        let '(own_fields, h4) := alloc_fields (read_fields h3 base_fields) h3 in
        (Ok {| cls_is_indexer := true;
               cls_base_fields := Some own_fields;
               cls_meta := Some meta |}, h4)
    end.

(** [class BaseIndexer(object)] and [class Indexer(BaseIndexer)]. *)
Definition BaseIndexer : pyclass :=
  {| cls_is_indexer := false; cls_base_fields := None; cls_meta := None |}.

Definition Indexer : pyclass :=
  {| cls_is_indexer := true; cls_base_fields := None; cls_meta := None |}.

(** What a class sees as its declared fields and its options. *)
Definition fields_of (h : heap) (c : pyclass) : gmap string Field :=
  from_option (read_fields h) ∅ (cls_base_fields c).

Definition meta_of (h : heap) (c : pyclass) : gmap string value :=
  from_option (read_meta h) ∅ (cls_meta c).

End Meta.

(** ** State and exceptions *)

(** A computation over a state [S] that returns or raises; the state it
    reached is kept in both cases. *)
Definition M (S A : Type) : Type := S -> result A * S.

Definition ret {S A} (a : A) : M S A := fun s => (Ok a, s).

Definition raise {S A} (e : exn) : M S A := fun s => (Raise e, s).

Definition bind {S A B} (m : M S A) (k : A -> M S B) : M S B :=
  fun s =>
    match m s with
    | (Ok a, s') => k a s'
    | (Raise e, s') => (Raise e, s')
    end.

Declare Scope py_scope.
Delimit Scope py_scope with py.
Notation "x <-- m ;; k" := (bind m (fun x => k))
  (at level 100, m at next level, right associativity) : py_scope.
Notation "m ;;; k" := (bind m (fun _ => k))
  (at level 100, right associativity) : py_scope.

(** [for x in xs: acc = step(acc, x)] *)
Fixpoint for_each {S A X} (xs : list X) (step : A -> X -> M S A) (acc : A) : M S A :=
  match xs with
  | [] => ret acc
  | x :: rest => bind (step acc x) (for_each rest step)
  end.

(** The wall clock: the sequence of readings [datetime.datetime.now()]
    returns, and how many have been taken. *)
Record time := {
  readings : nat -> Z;
  tick : nat
}.

(** [datetime.datetime.now()] *)
Definition now : M time Z :=
  fun c => (Ok (readings c (tick c)), {| readings := readings c; tick := S (tick c) |}).

(** ** Records, documents and the schema *)

Abbreviation document := (gmap string value).

Fixpoint lookup_member (name : string) (members : list (string * member)) : option member :=
  match members with
  | [] => None
  | (n, m) :: rest => if String.eqb n name then Some m else lookup_member name rest
  end.

(** Modelled from the spec: [get_attribute_or_callable] of the [schema]
    module, which is imported but is not part of [indexer.py].  A segment
    resolves a plain attribute or calls a zero-argument accessor of the
    current value; a name the value does not have is an [AttributeError]. *)
Definition get_attribute_or_callable (obj : value) (name : string) : result value :=
  match obj with
  | VObj members =>
      match lookup_member name members with
      | Some (Attr v) => Ok v
      | Some (Method ret) => ret
      | None => Raise (AttributeError name)
      end
  | _ => Raise (AttributeError name)
  end.

(** [s.split(sep)] for a one-character separator. *)
Fixpoint str_split (sep : ascii) (s : string) : list string :=
  match s with
  | EmptyString => [EmptyString]
  | String a rest =>
      if Ascii.eqb a sep then EmptyString :: str_split sep rest
      else
        match str_split sep rest with
        | first :: others => String a first :: others
        | [] => [String a EmptyString]
        end
  end.

(** Modelled from the spec: the schema of the backend, reached as
    [interface.schema].  [match_field] resolves a declared name to the
    backend's metadata or finds nothing. *)
Record Schema := {
  match_field : string -> option SolrField
}.

(** Modelled from the spec: [schema.check_fields(names)] fails when a name
    is unresolvable. *)
Definition check_fields (schema : Schema) (names : list string) : result unit :=
  if forallb (fun name => bool_decide (is_Some (match_field schema name))) names
  then Ok tt
  else Raise (Exception "undefined fields").

(** ** Indexer instances *)

(** An instance of a subclass of [BaseIndexer]: the class's [_meta], the
    timestamp taken by [__init__], the bound fields, and the
    [transform_<name>] methods the subclass defines, by [<name>]. *)
Record indexer := {
  _meta : gmap string value;
  index_timestamp : Z;
  fields : gmap string Field;
  transform_methods : string -> option (value -> result value)
}.

Definition bind_field (schema : Schema) (field_name : string) (f : Field) : Field :=
  {| attribute := attribute f;
     optional := optional f;
     solr_field := match_field schema field_name |}.

(** [BaseIndexer.__init__(self, interface)], for a class whose
    [base_fields] and [_meta] hold the given dictionaries.  The fields
    are held by value, each name with a field of its own: this is the
    instance of a class that declares a separate [Field] object under
    each name.  The two system fields are new objects in any case. *)
Definition BaseIndexer_init (base_fields : gmap string Field) (meta : gmap string value)
    (methods : string -> option (value -> result value)) (schema : Schema)
  : M time indexer :=
  (started <-- now ;;
   let declared :=
     <["meta_index_timestamp_dt" := Field_init None false]>
       (<["meta_type_s" := Field_init None false]> base_fields) in
   let bound := map_imap (fun name f => Some (bind_field schema name f)) declared in
   match check_fields schema (map fst (map_to_list bound)) with
   | Raise e => raise e
   | Ok _ =>
       ret {| _meta := meta;
              index_timestamp := started;
              fields := bound;
              transform_methods := methods |}
   end)%py.

(** [d[key]] *)
Definition getitem {S} (d : gmap string value) (key : string) : M S value :=
  match d !! key with
  | Some v => ret v
  | None => raise (KeyError key)
  end.

(** [BaseIndexer.transform_meta_type] *)
Definition transform_meta_type (self : indexer) (record : value) : M time value :=
  getitem (_meta self) "type".

(** [BaseIndexer.transform_meta_index_timestamp] *)
Definition transform_meta_index_timestamp (self : indexer) (record : value) : M time value :=
  (t <-- now ;; ret (VTime t))%py.

(** [getattr(self, 'transform_%s' % name)(record)]: a method of the
    subclass shadows the two methods of [BaseIndexer]. *)
Definition call_transform (self : indexer) (name : string) (record : value) : M time value :=
  match transform_methods self name with
  | Some method => fun c => (method record, c)
  | None =>
      if String.eqb name "meta_type" then transform_meta_type self record
      else if String.eqb name "meta_index_timestamp" then
        transform_meta_index_timestamp self record
      else raise (AttributeError ("transform_" +:+ name))
  end.

(** The loop over [field.attribute.split('.')]. *)
Fixpoint walk (path : string) (names : list string) (current : value) : result value :=
  match names with
  | [] => Ok current
  | name :: rest =>
      match current with
      | VNone =>
          Raise (AttributeError
                   ("Record does not contain: " +:+ path +:+ " currently trying to get: " +:+ name))
      | _ =>
          match get_attribute_or_callable current name with
          | Ok next => walk path rest next
          | Raise e => Raise e
          end
      end
  end.

(** The body of the [try] block in [transform]: the value of one field. *)
Definition resolve (self : indexer) (field_name : string) (field : Field) (record : value)
  : M time value :=
  match attribute field with
  | None =>
      match solr_field field with
      | None => raise (AttributeError "'NoneType' object has no attribute 'dynamic'")
      | Some sf =>
          if dynamic sf then call_transform self (display_name sf field_name) record
          else call_transform self field_name record
      end
  | Some path => fun c => (walk path (str_split "." path) record, c)
  end.

(** One iteration of the loop in [transform]: [try] / [except
    AttributeError] / [else]. *)
Definition transform_field (self : indexer) (record : value)
    (doc : document) (item : string * Field) : M time document :=
  fun c =>
    match resolve self (fst item) (snd item) record c with
    | (Ok v, c') => (Ok (if truthy v then <[fst item := v]> doc else doc), c')
    | (Raise (AttributeError msg), c') =>
        if optional (snd item) then (Ok doc, c') else (Raise (AttributeError msg), c')
    | (Raise e, c') => (Raise e, c')
    end.

(** [BaseIndexer.transform(self, record)] *)
Definition transform (self : indexer) (record : value) : M time document :=
  for_each (map_to_list (fields self)) (transform_field self record) ∅.

(** ** The backend *)

(** What [interface.Q(...)] builds: an equality predicate, a less-than
    predicate ([field__lt]), and their conjunction ([&]). *)
Inductive query :=
| QEq (field : string) (v : value)
| QLt (field : string) (v : value)
| QAnd (q1 q2 : query).

(** The calls [indexer.py] makes on [self.interface]. *)
Class Interface (B : Type) := {
  interface_add : list document -> B -> result B;
  interface_commit : B -> result B;
  interface_delete_queries : query -> B -> result B
}.

(** A backend that accepts every call and records it. *)
Inductive call :=
| AddCall (docs : list document)
| CommitCall
| DeleteCall (queries : query).

#[export] Instance recorder : Interface (list call) := {
  interface_add docs log := Ok (log ++ [AddCall docs]);
  interface_commit log := Ok (log ++ [CommitCall]);
  interface_delete_queries q log := Ok (log ++ [DeleteCall q])
}.

(** What a call looks like from outside: its kind and, for an add, how
    many documents it carries. *)
Inductive shape :=
| Added (n : nat)
| Committed
| Deleted.

Definition shape_of (c : call) : shape :=
  match c with
  | AddCall docs => Added (length docs)
  | CommitCall => Committed
  | DeleteCall _ => Deleted
  end.

(** Modelled from the spec: what a query selects.  The backend is only
    required to support equality and a less-than range; values that are
    not scalars of the same kind never compare. *)
Definition value_eqb (a b : value) : bool :=
  match a, b with
  | VBool x, VBool y => Bool.eqb x y
  | VInt x, VInt y => Z.eqb x y
  | VStr x, VStr y => String.eqb x y
  | VTime x, VTime y => Z.eqb x y
  | _, _ => false
  end.

Definition value_ltb (a b : value) : bool :=
  match a, b with
  | VInt x, VInt y => Z.ltb x y
  | VTime x, VTime y => Z.ltb x y
  | _, _ => false
  end.

Fixpoint matches (q : query) (d : document) : bool :=
  match q with
  | QEq field v => match d !! field with Some x => value_eqb x v | None => false end
  | QLt field v => match d !! field with Some x => value_ltb x v | None => false end
  | QAnd q1 q2 => matches q1 d && matches q2 d
  end.

(** Modelled from the spec: the index behind the interface.  Documents
    are stored under their identifier, the value of the schema's unique
    key; adding a document whose identifier is already stored overwrites
    it, a document without an identifier is refused, and a delete by
    query removes what the query selects.  A commit is a durability
    point: it does not change which documents the index holds. *)
Record index := {
  unique_key : string;
  stored : gmap (Z + string) document
}.

Definition doc_id (key : string) (d : document) : option (Z + string) :=
  match d !! key with
  | Some (VInt z) => Some (inl z)
  | Some (VStr s) => Some (inr s)
  | _ => None
  end.

Fixpoint store_docs (key : string) (docs : list document) (m : gmap (Z + string) document)
  : option (gmap (Z + string) document) :=
  match docs with
  | [] => Some m
  | d :: rest =>
      match doc_id key d with
      | Some i => store_docs key rest (<[i := d]> m)
      | None => None
      end
  end.

Definition index_add (docs : list document) (ix : index) : result index :=
  match store_docs (unique_key ix) docs (stored ix) with
  | Some m => Ok {| unique_key := unique_key ix; stored := m |}
  | None => Raise (BackendWriteError "document without identifier")
  end.

Definition index_delete (q : query) (ix : index) : index :=
  {| unique_key := unique_key ix;
     stored := filter (fun kv => matches q (snd kv) = false) (stored ix) |}.

#[export] Instance solr_index : Interface index := {
  interface_add := index_add;
  interface_commit ix := Ok ix;
  interface_delete_queries q ix := Ok (index_delete q ix)
}.

(** The number of stored documents whose [meta_type_s] is [tag]. *)
Definition count_of_type (tag : value) (ix : index) : nat :=
  size (filter (fun kv => matches (QEq "meta_type_s" tag) (snd kv) = true) (stored ix)).

(** ** Batches and the reindex run *)

Definition COMMIT_CHUNK_SIZE : Z := 1000.

Section Driver.

Context {B : Type} `{Interface B}.

(** A run works on the clock and on the backend. *)
Definition in_time {A} (m : M time A) : M (time * B) A :=
  fun w => let '(r, c) := m (fst w) in (r, (c, snd w)).

Definition call_interface (op : B -> result B) : M (time * B) unit :=
  fun w =>
    match op (snd w) with
    | Ok b => (Ok tt, (fst w, b))
    | Raise e => (Raise e, w)
    end.

(** [[self.transform(x) for x in records]] *)
Fixpoint transform_all (self : indexer) (records : list value) : M time (list document) :=
  match records with
  | [] => ret []
  | x :: rest =>
      (d <-- transform self x ;;
       docs <-- transform_all self rest ;;
       ret (d :: docs))%py
  end.

(** [BaseIndexer.add(self, records, commit=True)] *)
Definition add (self : indexer) (records : list value) (commit : bool) : M (time * B) unit :=
  (docs <-- in_time (transform_all self records) ;;
   call_interface (interface_add docs) ;;;
   if commit then call_interface interface_commit else ret tt)%py.

(** [BaseIndexer.update(self, records, commit=True)] *)
Definition update (self : indexer) (records : list value) (commit : bool) : M (time * B) unit :=
  add self records true.

(** The body of the loop in [reindex], on [(update_count, record_pool)]. *)
Definition reindex_step (self : indexer) (st : Z * list document) (record : value)
  : M (time * B) (Z * list document) :=
  (record_pool <--
     (if Z.eqb (fst st mod COMMIT_CHUNK_SIZE) 0
      then (call_interface (interface_add (snd st)) ;;; ret [])
      else ret (snd st)) ;;
   doc <-- in_time (transform self record) ;;
   ret (fst st + 1, record_pool ++ [doc]))%py.

(** [BaseIndexer.reindex(self)], where [self.get_records()] yields
    [records]. *)
Definition reindex (self : indexer) (records : list value) : M (time * B) Z :=
  (st <-- for_each records (reindex_step self) (0, []) ;;
   (if negb (Nat.eqb (length (snd st)) 0)
    then call_interface (interface_add (snd st))
    else ret tt) ;;;
   call_interface interface_commit ;;;
   type <-- getitem (_meta self) "type" ;;
   call_interface
     (interface_delete_queries
        (QAnd (QEq "meta_type_s" type)
              (QLt "meta_index_timestamp_dt" (VTime (index_timestamp self))))) ;;;
   ret (fst st))%py.

End Driver.

(** An instance of a class built by the metaclass: [self.base_fields]
    and [self._meta] are looked up on the class.  A class without
    [base_fields] (such as [Indexer] itself) fails at [deepcopy], after
    the timestamp was taken. *)
Definition instantiate (h : Meta.heap) (cls : Meta.pyclass)
    (methods : string -> option (value -> result value)) (schema : Schema) : M time indexer :=
  match Meta.cls_base_fields cls with
  | Some lf => BaseIndexer_init (Meta.read_fields h lf) (Meta.meta_of h cls) methods schema
  | None => (_ <-- now ;; raise (AttributeError "base_fields"))%py
  end.

(** ** A concrete indexer

    The [article] indexer of the documentation: two required attribute
    fields, [id] and [title], on a schema that knows them and resolves the
    two system fields as dynamic fields. *)

Module Sample.

Import Meta.

Definition static_field : SolrField :=
  {| dynamic := false; display_name := fun name => name |}.

Definition dynamic_field (shown : string) : SolrField :=
  {| dynamic := true; display_name := fun _ => shown |}.

Definition schema : Schema :=
  {| match_field := fun name =>
       if String.eqb name "id" then Some static_field
       else if String.eqb name "title" then Some static_field
       else if String.eqb name "subtitle" then Some static_field
       else if String.eqb name "meta_type_s" then Some (dynamic_field "meta_type")
       else if String.eqb name "meta_index_timestamp_dt"
            then Some (dynamic_field "meta_index_timestamp")
       else None |}.

Definition no_methods : string -> option (value -> result value) := fun _ => None.

(** [class Article(Indexer)] with [class Meta: type = tag]. *)
Definition article_attrs (tag : string) : list (string * attr) :=
  [("id", AField (Field_init (Some "id") false));
   ("title", AField (Field_init (Some "title") false));
   ("Meta", AObject {["type" := VStr tag]})].

(** [class Review(Article)] with one more field and its own tag. *)
Definition review_attrs : list (string * attr) :=
  [("subtitle", AField (Field_init (Some "subtitle") true));
   ("Meta", AObject {["type" := VStr "review"]})].

(** [class Untagged(Indexer)]: a field and no [Meta]. *)
Definition untagged_attrs : list (string * attr) :=
  [("id", AField (Field_init (Some "id") false))].

Definition class_of (r : result pyclass * heap) : pyclass :=
  match fst r with
  | Ok c => c
  | Raise _ => BaseIndexer
  end.

Definition article_class (tag : string) : result pyclass * heap :=
  new_class [Indexer] (article_attrs tag) empty_heap.

Definition article_defined : result pyclass * heap := article_class "article".

Definition Article : pyclass := class_of article_defined.

Definition review_defined : result pyclass * heap :=
  new_class [Article] review_attrs (snd article_defined).

Definition Review : pyclass := class_of review_defined.

(** The clock reads 1000, 1001, ... *)
Definition clock : time := {| readings := fun n => 1000 + Z.of_nat n; tick := 0 |}.

(** An instance of [Article] declared with type tag [tag], built at the
    first clock reading. *)
Definition make (tag : string) : result indexer * time :=
  instantiate (snd (article_class tag)) (class_of (article_class tag))
    no_methods schema clock.

Definition indexer_of (r : result indexer * time) : indexer :=
  match fst r with
  | Ok self => self
  | Raise _ =>
      {| _meta := ∅; index_timestamp := 0; fields := ∅; transform_methods := no_methods |}
  end.

Definition articles : indexer := indexer_of (make "article").

(** An instance of [Review]. *)
Definition reviews : indexer :=
  indexer_of (instantiate (snd review_defined) Review no_methods schema clock).

Definition record (i : Z) (title : value) : value :=
  VObj [("id", Attr (VInt i)); ("title", Attr title)].

(** [n] records with identifiers 1, ..., n. *)
Definition records (n : nat) : list value :=
  map (fun i => record (Z.of_nat i) (VStr "A")) (seq 1 n).

Definition document_of (r : result document * time) : document :=
  match fst r with
  | Ok doc => doc
  | Raise _ => ∅
  end.

(** An index keyed by [id] that holds one article written long ago,
    which no record of the source stands for any more. *)
Definition old_document : document :=
  {["id" := VInt 99; "title" := VStr "gone"; "meta_type_s" := VStr "article";
    "meta_index_timestamp_dt" := VTime 10]}.

Definition old_index : index :=
  {| unique_key := "id"; stored := {[inl 99 := old_document]} |}.

End Sample.

(** ** More of the indexer *)

(** [sep.join(names)] *)
Fixpoint str_join (sep : ascii) (names : list string) : string :=
  match names with
  | [] => ""
  | [name] => name
  | name :: (_ :: _) as rest => name +:+ String sep (str_join sep rest)
  end.

(** [if not isinstance(records, (list, tuple)): records = [records]] *)
Definition as_list (records : value) : list value :=
  match records with
  | VList l => l
  | _ => [records]
  end.

(** The options and the fields a class inherits: those of the first
    base that has any. *)
Definition inherited_meta (h : Meta.heap) (bases : list Meta.pyclass) : gmap string value :=
  from_option (Meta.read_meta h) ∅ (Meta.inherited Meta.cls_meta bases).

Definition inherited_fields (h : Meta.heap) (bases : list Meta.pyclass) : gmap string Field :=
  from_option (Meta.read_fields h) ∅ (Meta.inherited Meta.cls_base_fields bases).

(** The pool of [reindex] between two records: empty before the first
    record, and afterwards holding the records since the last full
    thousand. *)
Definition pool_ok (st : Z * list document) : Prop :=
  0 <= fst st /\
  (fst st = 0 -> snd st = []) /\
  (0 < fst st -> Z.of_nat (length (snd st)) = (fst st - 1) mod COMMIT_CHUNK_SIZE + 1).

(** [BaseIndexer.delete] talks to the backend through one more call,
    the delete by identifier. *)
Module ById.

(** [interface.delete(docs)] with a list of identifiers. *)
Class InterfaceById (B : Type) := {
  interface_delete : list value -> B -> result B
}.

(** A backend that records every call, deletes by identifier included. *)
Inductive request :=
| Issued (c : call)
| DeleteIds (ids : list value).

#[global] Instance requests : Interface (list request) := {
  interface_add docs log := Ok (log ++ [Issued (AddCall docs)]);
  interface_commit log := Ok (log ++ [Issued CommitCall]);
  interface_delete_queries q log := Ok (log ++ [Issued (DeleteCall q)])
}.

#[global] Instance requests_by_id : InterfaceById (list request) := {
  interface_delete ids log := Ok (log ++ [DeleteIds ids])
}.

(** [self.transform_id(x)]: [BaseIndexer] has no such method, a
    subclass has to define it. *)
Definition transform_id (self : indexer) (record : value) : M time value :=
  match transform_methods self "id" with
  | Some method => fun c => (method record, c)
  | None => raise (AttributeError "transform_id")
  end.

(** [[self.transform_id(x) for x in records]] *)
Fixpoint transform_ids (self : indexer) (records : list value) : M time (list value) :=
  match records with
  | [] => ret []
  | x :: rest =>
      (i <-- transform_id self x ;;
       ids <-- transform_ids self rest ;;
       ret (i :: ids))%py
  end.

(** [BaseIndexer.delete(self, records, commit=True)] *)
Definition delete {B} `{Interface B} `{InterfaceById B}
    (self : indexer) (records : value) (commit : bool) : M (time * B) unit :=
  (ids <-- in_time (transform_ids self (as_list records)) ;;
   call_interface (interface_delete ids) ;;;
   if commit then call_interface interface_commit else ret tt)%py.

End ById.

(** Further cases for the concrete indexer. *)
Module Cases.

(** A class body whose [Meta] declares no [type]. *)
Definition typeless_attrs : list (string * Meta.attr) :=
  [("id", Meta.AField (Field_init (Some "id") false));
   ("Meta", Meta.AObject {["label" := VStr "x"; "__doc__" := VStr "about"]})].

(** A record with a nested object. *)
Definition authored : value :=
  VObj [("id", Attr (VInt 7));
        ("author", Attr (VObj [("name", Attr (VStr "N")); ("email", Attr VNone)]))].

(** A record without any attribute. *)
Definition blank : value := VObj [].

(** The methods of a subclass that computes [title] and knows the
    identifier of a record. *)
Definition methods : string -> option (value -> result value) :=
  fun name =>
    if String.eqb name "title" then Some (fun _ => Ok (VStr "T"))
    else if String.eqb name "id" then Some (fun record => get_attribute_or_callable record "id")
    else None.

(** An indexer of that subclass, with [id] from the record and [title]
    computed, and the clock after its construction. *)
Definition titled_made : result indexer * time :=
  BaseIndexer_init
    {["id" := Field_init (Some "id") false; "title" := Field_init None false]}
    {["type" := VStr "titled"]} methods Sample.schema Sample.clock.

Definition titled : indexer := Sample.indexer_of titled_made.

End Cases.

(** ** Vocabulary of the statements *)

(** The clock after one more reading. *)
Definition advance (c : time) : time :=
  {| readings := readings c; tick := S (tick c) |}.

(** [c'] is the clock [c] after zero or more readings. *)
Definition later (c c' : time) : Prop :=
  readings c' = readings c /\ (tick c <= tick c')%nat.

(** The clock never goes backwards. *)
Definition monotone (c : time) : Prop :=
  forall i j : nat, (i <= j)%nat -> readings c i <= readings c j.

(** A field that does not stop [transform]: its value resolves, or the
    field is optional and resolution raises [AttributeError]. *)
Definition passes (self : indexer) (record : value) (c : time) (name : string) (f : Field)
  : Prop :=
  (exists v c', resolve self name f record c = (Ok v, c')) \/
  (optional f = true /\ exists msg c', resolve self name f record c = (Raise (AttributeError msg), c')).

(** The field resolves to a non-empty value. *)
Definition resolves_nonempty (self : indexer) (record : value) (c : time)
    (name : string) (f : Field) : Prop :=
  exists v c', resolve self name f record c = (Ok v, c') /\ truthy v = true.

(** The schema resolves the two system fields as dynamic fields shown
    as [meta_type] and [meta_index_timestamp], and the subclass does not
    define methods of these names. *)
Definition system_fields_bound (schema : Schema)
    (methods : string -> option (value -> result value)) : Prop :=
  (exists sf, match_field schema "meta_type_s" = Some sf /\
              dynamic sf = true /\ display_name sf "meta_type_s" = "meta_type") /\
  (exists sf, match_field schema "meta_index_timestamp_dt" = Some sf /\
              dynamic sf = true /\
              display_name sf "meta_index_timestamp_dt" = "meta_index_timestamp") /\
  methods "meta_type" = None /\
  methods "meta_index_timestamp" = None.

(** Successive [interface.add] calls, one per batch. *)
Fixpoint add_batches {B} `{Interface B} (batches : list (list document)) (b : B) : result B :=
  match batches with
  | [] => Ok b
  | docs :: rest =>
      match interface_add docs b with
      | Ok b' => add_batches rest b'
      | Raise e => Raise e
      end
  end.

(** The query of the final delete in [reindex]. *)
Definition stale (tag : value) (watermark : Z) : query :=
  QAnd (QEq "meta_type_s" tag) (QLt "meta_index_timestamp_dt" (VTime watermark)).

(** * Properties *)

(** ** The metaclass *)

Section MetaclassFacts.

Import Meta.

Lemma read_fields_update_field_eq l name f h :
  read_fields (update_field l name f h) l = <[name := f]> (read_fields h l).
Proof. unfold read_fields, update_field; simpl. by rewrite lookup_insert_eq. Qed.

Lemma read_meta_update_field l l' name f h :
  read_meta (update_field l name f h) l' = read_meta h l'.
Proof. reflexivity. Qed.

Lemma read_meta_update_meta_eq l d h :
  read_meta (update_meta l d h) l = d ∪ read_meta h l.
Proof. unfold read_meta, update_meta; simpl. by rewrite lookup_insert_eq. Qed.

(** Options only accumulate while a class body is processed. *)
Lemma class_body_meta_grows attrs bf lm h h' r key v :
  class_body attrs bf lm h = (r, h') ->
  read_meta h lm !! key = Some v ->
  is_Some (read_meta h' lm !! key).
Proof.
  revert h v. induction attrs as [|[name obj] rest IH]; intros h v Hrun Hkey; simpl in Hrun.
  - inversion Hrun; subst. eauto.
  - destruct obj as [f|d|].
    + eapply IH; [exact Hrun|]. rewrite read_meta_update_field. exact Hkey.
    + destruct (String.eqb name "Meta"); [|by eapply IH].
      assert (Hgrow : is_Some (read_meta (update_meta lm (public_items d) h) lm !! key)).
      { rewrite read_meta_update_meta_eq. apply lookup_union_is_Some. right. eauto. }
      destruct (read_meta (update_meta lm (public_items d) h) lm !! "type").
      * destruct Hgrow as [v' Hv']. by eapply IH.
      * inversion Hrun; subst. exact Hgrow.
    + destruct (String.eqb name "Meta"); [|by eapply IH].
      inversion Hrun; subst. eauto.
Qed.

(** The check the metaclass does make: a class body that declares a
    [Meta] object is accepted only if the merged options hold [type]. *)
Lemma class_body_with_Meta_has_type attrs bf lm h h' d :
  ("Meta", AObject d) ∈ attrs ->
  class_body attrs bf lm h = (Ok tt, h') ->
  is_Some (read_meta h' lm !! "type").
Proof.
  revert h. induction attrs as [|[name obj] rest IH]; intros h Hin Hrun.
  - by apply elem_of_nil in Hin.
  - apply elem_of_cons in Hin as [Heq|Hin].
    + inversion Heq; subst. simpl in Hrun.
      destruct (read_meta (update_meta lm (public_items d) h) lm !! "type") as [v|] eqn:Hty;
        [|discriminate].
      eapply class_body_meta_grows; eauto.
    + simpl in Hrun. destruct obj as [f|d'|].
      * by eapply IH.
      * destruct (String.eqb name "Meta"); [|by eapply IH].
        destruct (read_meta (update_meta lm (public_items d') h) lm !! "type");
          [by eapply IH | discriminate].
      * destruct (String.eqb name "Meta"); [discriminate | by eapply IH].
Qed.

(** Without a [Meta] attribute nothing is checked: the loop cannot raise. *)
Lemma class_body_without_Meta attrs bf lm h :
  (forall a, ("Meta", a) ∈ attrs -> exists f, a = AField f) ->
  exists h', class_body attrs bf lm h = (Ok tt, h') /\ read_meta h' lm = read_meta h lm.
Proof.
  revert h. induction attrs as [|[name obj] rest IH]; intros h Hno; simpl.
  - eauto.
  - assert (Hrest : forall a, ("Meta", a) ∈ rest -> exists f, a = AField f).
    { intros a Ha. apply Hno. by apply list_elem_of_further. }
    destruct obj as [f|d|].
    + destruct (IH (update_field bf name f h) Hrest) as (h' & Hrun & Hmeta). eauto.
    + destruct (String.eqb_spec name "Meta") as [->|_]; [|by apply IH].
      destruct (Hno (AObject d)) as [f Hf]; [by apply list_elem_of_here | discriminate].
    + destruct (String.eqb_spec name "Meta") as [->|_]; [|by apply IH].
      destruct (Hno AOther) as [f Hf]; [by apply list_elem_of_here | discriminate].
Qed.

(** A class whose body has no [Meta] is always created, whatever its
    options hold. *)
Lemma new_class_without_Meta bases attrs h :
  (forall a, ("Meta", a) ∈ attrs -> exists f, a = AField f) ->
  exists c h', new_class bases attrs h = (Ok c, h').
Proof.
  intros Hno. unfold new_class.
  destruct (forallb _ bases); [eauto|].
  destruct (match inherited cls_base_fields bases with
            | Some l => (l, h) | None => alloc_fields ∅ h end) as [bf h1].
  destruct (match inherited cls_meta bases with
            | Some l => (l, h1) | None => alloc_meta ∅ h1 end) as [lm h2].
  destruct (class_body_without_Meta attrs bf lm h2 Hno) as (h3 & -> & _).
  destruct (alloc_fields (read_fields h3 bf) h3) as [own h4]. eauto.
Qed.

(** The subclass does not get options of its own: it keeps the address of
    the dictionary it inherited. *)
Lemma new_class_shares_meta parent attrs h c h' lm :
  cls_is_indexer parent = true ->
  cls_meta parent = Some lm ->
  new_class [parent] attrs h = (Ok c, h') ->
  cls_meta c = Some lm.
Proof.
  intros Hind Hm. unfold new_class.
  assert (Hinh : inherited cls_meta [parent] = Some lm).
  { unfold inherited. simpl. by rewrite Hm. }
  rewrite Hinh. cbn [forallb]. rewrite Hind. cbn [negb andb].
  destruct (match inherited cls_base_fields [parent] with
            | Some l => (l, h) | None => alloc_fields ∅ h end) as [bf h1].
  destruct (class_body attrs bf lm h1) as [[[]|e] h3]; [|discriminate].
  destruct (alloc_fields (read_fields h3 bf) h3) as [own h4].
  intros Heq. by inversion Heq.
Qed.

End MetaclassFacts.

Section MetaclassAliasing.

Import Meta.

Lemma read_fields_update_meta l l' d h :
  read_fields (update_meta l d h) l' = read_fields h l'.
Proof. reflexivity. Qed.

(** Field names the class body does not declare keep their entry. *)
Lemma class_body_fields_frame attrs bf lm h h' r name :
  name ∉ attrs.*1 ->
  class_body attrs bf lm h = (r, h') ->
  read_fields h' bf !! name = read_fields h bf !! name.
Proof.
  revert h. induction attrs as [|[n obj] rest IH]; intros h Hnot Hrun; simpl in Hrun.
  - by inversion Hrun.
  - rewrite fmap_cons, not_elem_of_cons in Hnot. destruct Hnot as [Hne Hnot]. simpl in Hne.
    destruct obj as [f|d|].
    + rewrite (IH _ Hnot Hrun), read_fields_update_field_eq. by rewrite lookup_insert_ne.
    + destruct (String.eqb n "Meta"); [|by eapply IH].
      destruct (read_meta (update_meta lm (public_items d) h) lm !! "type").
      * by rewrite (IH _ Hnot Hrun).
      * by inversion Hrun.
    + destruct (String.eqb n "Meta"); [by inversion Hrun | by eapply IH].
Qed.

(** Every declared field is written into the dictionary the loop was
    given. *)
Lemma class_body_declares attrs bf lm h h' name f :
  NoDup attrs.*1 ->
  (name, AField f) ∈ attrs ->
  class_body attrs bf lm h = (Ok tt, h') ->
  read_fields h' bf !! name = Some f.
Proof.
  revert h. induction attrs as [|[n obj] rest IH]; intros h Hnd Hin Hrun.
  - by apply elem_of_nil in Hin.
  - rewrite fmap_cons in Hnd. apply NoDup_cons in Hnd as [Hfresh Hnd]. simpl in Hfresh.
    apply elem_of_cons in Hin as [Heq|Hin].
    + inversion Heq; subst. simpl in Hrun.
      rewrite (class_body_fields_frame _ _ _ _ _ _ _ Hfresh Hrun), read_fields_update_field_eq.
      apply lookup_insert_eq.
    + simpl in Hrun. destruct obj as [g|d|].
      * by eapply IH.
      * destruct (String.eqb n "Meta"); [|by eapply IH].
        destruct (read_meta (update_meta lm (public_items d) h) lm !! "type");
          [by eapply IH | discriminate].
      * destruct (String.eqb n "Meta"); [discriminate | by eapply IH].
Qed.

Lemma class_body_keeps_dicts attrs bf lm h h' r l :
  l ∈ dom (field_dicts h) ->
  class_body attrs bf lm h = (r, h') ->
  l ∈ dom (field_dicts h').
Proof.
  revert h. induction attrs as [|[n obj] rest IH]; intros h Hl Hrun; simpl in Hrun.
  - by inversion Hrun; subst.
  - destruct obj as [f|d|].
    + eapply IH; [|exact Hrun]. simpl. rewrite dom_insert. set_solver.
    + destruct (String.eqb n "Meta"); [|by eapply IH].
      destruct (read_meta (update_meta lm (public_items d) h) lm !! "type").
      * eapply IH; [|exact Hrun]. exact Hl.
      * by inversion Hrun; subst.
    + destruct (String.eqb n "Meta"); [by inversion Hrun; subst | by eapply IH].
Qed.

(** Defining a subclass writes its declared fields into the dictionary of
    the superclass: the addresses are the same, and the copy is taken
    only after the update. *)
Lemma new_class_writes_into_parent parent attrs h c h' lf name f :
  cls_is_indexer parent = true ->
  cls_base_fields parent = Some lf ->
  lf ∈ dom (field_dicts h) ->
  NoDup attrs.*1 ->
  (name, AField f) ∈ attrs ->
  new_class [parent] attrs h = (Ok c, h') ->
  fields_of h' parent !! name = Some f /\ fields_of h' c !! name = Some f.
Proof.
  intros Hind Hlf Hdom Hnd Hin. unfold new_class.
  assert (Hinh : inherited cls_base_fields [parent] = Some lf).
  { unfold inherited. simpl. by rewrite Hlf. }
  rewrite Hinh. cbn [forallb]. rewrite Hind. cbn [negb andb].
  destruct (match inherited cls_meta [parent] with
            | Some l => (l, h) | None => alloc_meta ∅ h end) as [lm h2] eqn:Hm.
  assert (Hdom2 : lf ∈ dom (field_dicts h2)).
  { destruct (inherited cls_meta [parent]); inversion Hm; subst; exact Hdom. }
  destruct (class_body attrs lf lm h2) as [[[]|e] h3] eqn:Hbody; [|discriminate].
  pose proof (class_body_declares _ _ _ _ _ _ _ Hnd Hin Hbody) as Hdecl.
  pose proof (class_body_keeps_dicts _ _ _ _ _ _ _ Hdom2 Hbody) as Hdom3.
  unfold alloc_fields. intros Heq. inversion Heq; subst; clear Heq.
  unfold fields_of. rewrite Hlf. simpl.
  assert (Hne : fresh (dom (field_dicts h3)) ≠ lf).
  { intros Hf. rewrite <- Hf in Hdom3. by apply is_fresh in Hdom3. }
  split.
  - unfold read_fields at 1. simpl. rewrite lookup_insert_ne by done. exact Hdecl.
  - unfold read_fields at 1. simpl. rewrite lookup_insert_eq. exact Hdecl.
Qed.

End MetaclassAliasing.

(** [class Indexer(BaseIndexer)] has no parent built by the metaclass:
    it is created as it stands. *)
Example Indexer_defined :
  Meta.new_class [Meta.BaseIndexer] [] Meta.empty_heap = (Ok Meta.Indexer, Meta.empty_heap).
Proof. reflexivity. Qed.

(** C8.  Defining a subtype merges the supertype's fields and options
    into the subtype, the subtype's keys overriding; but the supertype
    does not stay as it was.  [Review(Article)] declares the field
    [subtitle] and the type tag [review]: afterwards [Article] itself
    has the field [subtitle] and the type tag [review]. *)
Theorem subclass_definition_changes_superclass :
  let before := snd Sample.article_defined in
  let after := snd Sample.review_defined in
  (Meta.meta_of after Sample.Review !! "type" = Some (VStr "review") /\
   map fst (map_to_list (Meta.fields_of after Sample.Review)) = ["subtitle"; "id"; "title"]) /\
  (Meta.meta_of before Sample.Article !! "type" = Some (VStr "article") /\
   map fst (map_to_list (Meta.fields_of before Sample.Article)) = ["id"; "title"]) /\
  (Meta.meta_of after Sample.Article !! "type" = Some (VStr "review") /\
   map fst (map_to_list (Meta.fields_of after Sample.Article)) = ["subtitle"; "id"; "title"]).
Proof. vm_compute. repeat split; reflexivity. Qed.

(** C9.  A class below [Indexer] whose body has no [Meta] is created
    although its options lack [type]: no error is raised when the class
    is defined, an instance can be constructed, and the missing tag only
    shows as a [KeyError] when a record is transformed. *)
Theorem untagged_indexer_is_defined :
  exists c h self t,
    Meta.new_class [Meta.Indexer] Sample.untagged_attrs Meta.empty_heap = (Ok c, h) /\
    Meta.meta_of h c !! "type" = None /\
    instantiate h c Sample.no_methods Sample.schema Sample.clock = (Ok self, t) /\
    fst (transform self (Sample.record 1 (VStr "A")) t) = Raise (KeyError "type").
Proof.
  pose (defined := Meta.new_class [Meta.Indexer] Sample.untagged_attrs Meta.empty_heap).
  pose (made := instantiate (snd defined) (Sample.class_of defined)
                  Sample.no_methods Sample.schema Sample.clock).
  exists (Sample.class_of defined), (snd defined), (Sample.indexer_of made), (snd made).
  split_and!; vm_compute; reflexivity.
Qed.

(** ** Transforming one record *)

Lemma later_refl c : later c c.
Proof. split; [reflexivity | lia]. Qed.

Lemma later_trans c1 c2 c3 : later c1 c2 -> later c2 c3 -> later c1 c3.
Proof. intros [H1 H2] [H3 H4]. split; [congruence | lia]. Qed.

Lemma later_advance c : later c (advance c).
Proof. split; [reflexivity | simpl; lia]. Qed.

#[local] Hint Resolve later_refl later_trans later_advance : core.

(** A method call either ignores the clock or is the one method that
    reads it. *)
Lemma call_transform_cases self name record :
  (exists r, forall c, call_transform self name record c = (r, c)) \/
  (forall c, call_transform self name record c =
             (Ok (VTime (readings c (tick c))), advance c)).
Proof.
  unfold call_transform.
  destruct (transform_methods self name) as [method|]; [left; eauto|].
  destruct (String.eqb name "meta_type").
  - left. unfold transform_meta_type, getitem.
    destruct (_meta self !! "type"); eauto.
  - destruct (String.eqb name "meta_index_timestamp"); [right; reflexivity|].
    left. eauto.
Qed.

Lemma resolve_cases self name f record :
  (exists r, forall c, resolve self name f record c = (r, c)) \/
  (forall c, resolve self name f record c =
             (Ok (VTime (readings c (tick c))), advance c)).
Proof.
  unfold resolve. destruct (attribute f) as [path|]; [left; eauto|].
  destruct (solr_field f) as [sf|]; [|left; eauto].
  destruct (dynamic sf); apply call_transform_cases.
Qed.

Lemma resolve_later self name f record c r c' :
  resolve self name f record c = (r, c') -> later c c'.
Proof.
  destruct (resolve_cases self name f record) as [[r0 H]|H]; rewrite H; intros Heq;
    inversion Heq; subst; auto.
Qed.

(** Whether a field resolves, fails, or is empty does not depend on when
    it is asked. *)
Lemma resolve_failure_anytime self name f record c1 c1' e :
  resolve self name f record c1 = (Raise e, c1') ->
  forall c, resolve self name f record c = (Raise e, c).
Proof.
  destruct (resolve_cases self name f record) as [[r0 H]|H]; rewrite H; intros Heq;
    inversion Heq; subst. intros c. apply H.
Qed.

Lemma resolve_nonempty_anytime self name f record c1 c2 :
  resolves_nonempty self record c1 name f -> resolves_nonempty self record c2 name f.
Proof.
  intros (v & c' & Hres & Htr).
  destruct (resolve_cases self name f record) as [[r0 H]|H]; rewrite H in Hres;
    inversion Hres; subst.
  - exists v, c2. by rewrite H.
  - exists (VTime (readings c2 (tick c2))), (advance c2). by rewrite H.
Qed.

Lemma passes_anytime self record c1 c2 name f :
  passes self record c1 name f -> passes self record c2 name f.
Proof.
  intros [(v & c' & Hres)|(Hopt & msg & c' & Hres)].
  - left. destruct (resolve_cases self name f record) as [[r0 H]|H]; rewrite H in Hres;
      inversion Hres; subst; rewrite H; eauto.
  - right. split; [done|]. exists msg, c2. eapply resolve_failure_anytime; eauto.
Qed.

(** What one iteration of the loop does to the document. *)
Lemma transform_field_ok self record doc item c doc' c' :
  transform_field self record doc item c = (Ok doc', c') ->
  later c c' /\
  ((exists v, resolve self item.1 item.2 record c = (Ok v, c') /\
              doc' = if truthy v then <[item.1 := v]> doc else doc) \/
   (optional item.2 = true /\ doc' = doc /\
    exists msg, resolve self item.1 item.2 record c = (Raise (AttributeError msg), c'))).
Proof.
  unfold transform_field.
  destruct (resolve self item.1 item.2 record c) as [[v|e] c1] eqn:Hres.
  - intros Heq; inversion Heq; subst. split; [by eapply resolve_later|]. left; eauto.
  - destruct e as [msg| | |]; try discriminate.
    destruct (optional item.2) eqn:Hopt; [|discriminate].
    intros Heq; inversion Heq; subst. split; [by eapply resolve_later|]. right; eauto.
Qed.

(** The loop of [transform], from any document built so far. *)
Lemma transform_loop_sound self record items :
  NoDup items.*1 ->
  forall doc0 c doc c',
    for_each items (transform_field self record) doc0 c = (Ok doc, c') ->
    later c c' /\
    forall name,
      (name ∉ items.*1 -> doc !! name = doc0 !! name) /\
      (forall f, (name, f) ∈ items ->
         (exists v c1 c2, later c c1 /\ later c2 c' /\
             resolve self name f record c1 = (Ok v, c2) /\
             doc !! name = if truthy v then Some v else doc0 !! name) \/
         (optional f = true /\ doc !! name = doc0 !! name /\
          exists msg c1, resolve self name f record c1 = (Raise (AttributeError msg), c1))).
Proof.
  induction items as [|[n g] rest IH]; intros Hnd doc0 c doc c' Hrun.
  - inversion Hrun; subst. split; [auto|]. intros name. split; [done|].
    intros f Hin. by apply elem_of_nil in Hin.
  - rewrite fmap_cons in Hnd. apply NoDup_cons in Hnd as [Hfresh Hnd]. simpl in Hfresh.
    simpl in Hrun. unfold bind in Hrun.
    destruct (transform_field self record doc0 (n, g) c) as [[doc1|e] c1] eqn:Hstep;
      [|discriminate].
    apply transform_field_ok in Hstep as [Hl1 Hstep]. simpl in Hstep.
    destruct (IH Hnd _ _ _ _ Hrun) as [Hl2 Hrest].
    split; [eauto|]. intros name. destruct (Hrest name) as [Hout Hin]. split.
    + intros Hnot. rewrite fmap_cons, not_elem_of_cons in Hnot. destruct Hnot as [Hne Hnot].
      simpl in Hne. rewrite (Hout Hnot).
      destruct Hstep as [(v & _ & ->)|(_ & -> & _)]; [|done].
      destruct (truthy v); [by rewrite lookup_insert_ne|done].
    + intros f Hf. apply elem_of_cons in Hf as [Heq|Hf].
      * inversion Heq; subst. rewrite (Hout Hfresh).
        destruct Hstep as [(v & Hres & ->)|(Hopt & -> & msg & Hres)].
        -- left. exists v, c, c1. split_and!; auto.
           destruct (truthy v); [by rewrite lookup_insert_eq|done].
        -- right. split_and!; auto. exists msg, c.
           eapply resolve_failure_anytime; eauto.
      * assert (Hne : n ≠ name).
        { intros ->. apply Hfresh. apply list_elem_of_fmap. by exists (name, f). }
        assert (Hdoc1 : doc1 !! name = doc0 !! name).
        { destruct Hstep as [(v & _ & ->)|(_ & -> & _)]; [|done].
          destruct (truthy v); [by rewrite lookup_insert_ne|done]. }
        destruct (Hin f Hf) as [(v & c2 & c3 & Hl3 & Hl4 & Hres & Hdoc)|(Hopt & Hdoc & Hfail)].
        -- left. exists v, c2, c3. rewrite <- Hdoc1. split_and!; eauto.
        -- right. rewrite <- Hdoc1. auto.
Qed.

(** The loop runs to its end when every field passes. *)
Lemma transform_loop_total self record items :
  (forall name f c, (name, f) ∈ items -> passes self record c name f) ->
  forall doc0 c, exists doc c',
    for_each items (transform_field self record) doc0 c = (Ok doc, c').
Proof.
  induction items as [|[n g] rest IH]; intros Hpass doc0 c; simpl.
  - eexists _, _. reflexivity.
  - unfold bind, transform_field at 1. simpl.
    destruct (Hpass n g c) as [(v & c1 & ->)|(Hopt & msg & c1 & ->)];
      [apply list_elem_of_here| |]; [|rewrite Hopt];
      (apply IH; intros; apply Hpass; by apply list_elem_of_further).
Qed.

(** The loop stops at the first field that does not pass; a required
    field whose resolution raises [AttributeError] is such a field. *)
Lemma transform_loop_raises self record items name f msg :
  (name, f) ∈ items ->
  optional f = false ->
  (forall c, resolve self name f record c = (Raise (AttributeError msg), c)) ->
  forall doc0 c, exists e c',
    for_each items (transform_field self record) doc0 c = (Raise e, c').
Proof.
  intros Hin Hreq Hfail. induction items as [|[n g] rest IH]; intros doc0 c.
  - by apply elem_of_nil in Hin.
  - simpl. unfold bind.
    destruct (transform_field self record doc0 (n, g) c) as [[doc1|e] c1] eqn:Hstep;
      [|eauto].
    apply elem_of_cons in Hin as [Heq|Hin]; [|by apply IH].
    inversion Heq; subst. unfold transform_field in Hstep. simpl in Hstep.
    rewrite Hfail, Hreq in Hstep. discriminate.
Qed.

(** A path that reaches [None] before its last segment raises, and so
    does a segment the current value does not have. *)
Lemma walk_through_None path name rest :
  exists msg, walk path (name :: rest) VNone = Raise (AttributeError msg).
Proof. simpl. eauto. Qed.

Lemma walk_missing_attribute path name rest members :
  lookup_member name members = None ->
  walk path (name :: rest) (VObj members) = Raise (AttributeError name).
Proof. intros H. simpl. by rewrite H. Qed.

(** ** Construction *)

Lemma BaseIndexer_init_ok base meta methods schema c0 self c1 :
  BaseIndexer_init base meta methods schema c0 = (Ok self, c1) ->
  c1 = advance c0 /\
  index_timestamp self = readings c0 (tick c0) /\
  _meta self = meta /\
  transform_methods self = methods /\
  forall name,
    fields self !! name =
      bind_field schema name <$>
        (<["meta_index_timestamp_dt" := Field_init None false]>
           (<["meta_type_s" := Field_init None false]> base) !! name).
Proof.
  unfold BaseIndexer_init, bind, now. simpl.
  destruct (check_fields schema _) as [[]|e]; [|discriminate].
  unfold ret. intros Heq; inversion Heq; subst; simpl.
  split_and!; try reflexivity.
  intros name. rewrite map_lookup_imap.
  by destruct (_ !! name).
Qed.

(** The two system fields are bound fields of every instance, required
    and without an attribute path. *)
Lemma BaseIndexer_init_system_fields base meta methods schema c0 self c1 :
  BaseIndexer_init base meta methods schema c0 = (Ok self, c1) ->
  fields self !! "meta_type_s" =
    Some (bind_field schema "meta_type_s" (Field_init None false)) /\
  fields self !! "meta_index_timestamp_dt" =
    Some (bind_field schema "meta_index_timestamp_dt" (Field_init None false)).
Proof.
  intros Hinit. apply BaseIndexer_init_ok in Hinit as (_ & _ & _ & _ & Hf).
  rewrite !Hf. split.
  - rewrite lookup_insert_ne by done. by rewrite lookup_insert_eq.
  - by rewrite lookup_insert_eq.
Qed.

Lemma transform_sound self record c doc c' :
  transform self record c = (Ok doc, c') ->
  later c c' /\
  forall name,
    (fields self !! name = None -> doc !! name = None) /\
    (forall f, fields self !! name = Some f ->
       (exists v c1 c2, later c c1 /\ later c2 c' /\
           resolve self name f record c1 = (Ok v, c2) /\
           doc !! name = if truthy v then Some v else None) \/
       (optional f = true /\ doc !! name = None /\
        exists msg c1, resolve self name f record c1 = (Raise (AttributeError msg), c1))).
Proof.
  unfold transform. intros Hrun.
  apply transform_loop_sound in Hrun as [Hl Hrun]; [|apply NoDup_fst_map_to_list].
  split; [done|]. intros name. destruct (Hrun name) as [Hout Hin]. split.
  - intros Hnone. rewrite Hout; [apply lookup_empty|].
    intros Hel. apply list_elem_of_fmap in Hel as [[n f] [-> Hel]].
    apply elem_of_map_to_list in Hel. simpl in Hnone. congruence.
  - intros f Hf. apply elem_of_map_to_list in Hf.
    destruct (Hin f Hf) as [(v & c1 & c2 & H1 & H2 & H3 & H4)|(H1 & H2 & H3)].
    + left. exists v, c1, c2. by rewrite lookup_empty in H4.
    + right. by rewrite lookup_empty in H2.
Qed.

(** ** The system fields *)

Section SystemFields.

Variables (schema : Schema) (methods : string -> option (value -> result value)).
Hypothesis Hbound : system_fields_bound schema methods.

Lemma resolve_meta_type self record c :
  transform_methods self = methods ->
  resolve self "meta_type_s" (bind_field schema "meta_type_s" (Field_init None false)) record c
  = getitem (_meta self) "type" c.
Proof.
  intros Hm. destruct Hbound as ((sf & Hsf & Hdyn & Hname) & _ & Hno & _).
  unfold resolve, bind_field. simpl. rewrite Hsf, Hdyn, Hname.
  unfold call_transform. rewrite Hm, Hno. reflexivity.
Qed.

Lemma resolve_meta_index_timestamp self record c :
  transform_methods self = methods ->
  resolve self "meta_index_timestamp_dt"
    (bind_field schema "meta_index_timestamp_dt" (Field_init None false)) record c
  = (Ok (VTime (readings c (tick c))), advance c).
Proof.
  intros Hm. destruct Hbound as (_ & (sf & Hsf & Hdyn & Hname) & _ & Hno).
  unfold resolve, bind_field. simpl. rewrite Hsf, Hdyn, Hname.
  unfold call_transform. rewrite Hm, Hno. reflexivity.
Qed.

End SystemFields.

(** C3, as amended.  For an indexer whose type tag is non-empty and whose
    system fields the schema binds to the two built-in methods, on a clock
    that never goes backwards: every document [transform] produces after
    the indexer was constructed carries [meta_type_s] equal to the type
    tag and [meta_index_timestamp_dt] equal to a clock reading taken
    during that very call of [transform], and this reading is not before
    the timestamp the indexer took at construction. *)
Theorem transform_system_fields
    base meta methods schema c0 self c1 tag record c doc c' :
  monotone c0 ->
  system_fields_bound schema methods ->
  meta !! "type" = Some tag ->
  truthy tag = true ->
  BaseIndexer_init base meta methods schema c0 = (Ok self, c1) ->
  later c1 c ->
  transform self record c = (Ok doc, c') ->
  doc !! "meta_type_s" = Some tag /\
  exists t : nat,
    (tick c <= t < tick c')%nat /\
    doc !! "meta_index_timestamp_dt" = Some (VTime (readings c0 t)) /\
    index_timestamp self <= readings c0 t.
Proof.
  intros Hmono Hbound Htag Htruthy Hinit Hlater Hrun.
  destruct (BaseIndexer_init_system_fields _ _ _ _ _ _ _ Hinit) as [Hty Hts].
  apply BaseIndexer_init_ok in Hinit as (-> & Hstart & Hmeta & Hmeth & _).
  apply transform_sound in Hrun as [Hcc' Hdoc]. split.
  - destruct (Hdoc "meta_type_s") as [_ Hin].
    destruct (Hin _ Hty) as [(v & c2 & c3 & _ & _ & Hres & Hv)|(Hopt & _)];
      [|discriminate].
    rewrite (resolve_meta_type _ _ Hbound) in Hres by done.
    unfold getitem in Hres. rewrite Hmeta, Htag in Hres. inversion Hres; subst.
    by rewrite Htruthy in Hv.
  - destruct (Hdoc "meta_index_timestamp_dt") as [_ Hin].
    destruct (Hin _ Hts) as [(v & c2 & c3 & Hl2 & Hl3 & Hres & Hv)|(Hopt & _)];
      [|discriminate].
    rewrite (resolve_meta_index_timestamp _ _ Hbound) in Hres by done.
    inversion Hres; subst. simpl in Hv.
    destruct Hlater as [Hr1 Ht1], Hl2 as [Hr2 Ht2], Hl3 as [Hr3 Ht3]. simpl in *.
    exists (tick c2). split; [lia|].
    assert (Hr : readings c2 = readings c0) by congruence.
    rewrite Hr in Hv. split; [exact Hv|].
    rewrite Hstart. apply Hmono. lia.
Qed.

Lemma transform_system_fields_witness :
  let made := Sample.make "article" in
  let out := transform Sample.articles (Sample.record 1 (VStr "A")) (snd made) in
  Sample.document_of out !! "meta_type_s" = Some (VStr "article") /\
  exists t : nat,
    (tick (snd made) <= t < tick (snd out))%nat /\
    Sample.document_of out !! "meta_index_timestamp_dt"
      = Some (VTime (readings Sample.clock t)) /\
    index_timestamp Sample.articles <= readings Sample.clock t.
Proof.
  intros made out.
  apply (transform_system_fields
           (Meta.fields_of (snd Sample.article_defined) Sample.Article)
           (Meta.meta_of (snd Sample.article_defined) Sample.Article)
           Sample.no_methods Sample.schema Sample.clock Sample.articles (snd made)
           (VStr "article") (Sample.record 1 (VStr "A")) (snd made)
           (Sample.document_of out) (snd out)).
  - intros i j Hij. simpl. lia.
  - split_and!; [| |reflexivity|reflexivity].
    + exists (Sample.dynamic_field "meta_type"). split_and!; reflexivity.
    + exists (Sample.dynamic_field "meta_index_timestamp"). split_and!; reflexivity.
  - vm_compute. reflexivity.
  - reflexivity.
  - vm_compute. reflexivity.
  - split; [reflexivity | apply Nat.le_refl].
  - vm_compute. reflexivity.
Defined.

(** An indexer may be declared with the empty type tag; its documents
    then do not carry [meta_type_s] at all. *)
Lemma empty_type_tag_is_not_written :
  exists cls h self c1 doc c',
    Sample.article_class "" = (Ok cls, h) /\
    Sample.make "" = (Ok self, c1) /\
    _meta self !! "type" = Some (VStr "") /\
    transform self (Sample.record 1 (VStr "A")) c1 = (Ok doc, c') /\
    doc !! "meta_type_s" = None.
Proof.
  exists (Sample.class_of (Sample.article_class "")), (snd (Sample.article_class "")),
    (Sample.indexer_of (Sample.make "")), (snd (Sample.make "")),
    (Sample.document_of (transform (Sample.indexer_of (Sample.make ""))
                           (Sample.record 1 (VStr "A")) (snd (Sample.make "")))),
    (snd (transform (Sample.indexer_of (Sample.make ""))
            (Sample.record 1 (VStr "A")) (snd (Sample.make "")))).
  split_and!; vm_compute; reflexivity.
Qed.

(** ** The keys of a document *)

Lemma resolve_deterministic_truthy self name f record c1 c2 v1 v2 c1' c2' :
  resolve self name f record c1 = (Ok v1, c1') ->
  resolve self name f record c2 = (Ok v2, c2') ->
  truthy v1 = truthy v2.
Proof.
  destruct (resolve_cases self name f record) as [[r0 H]|H]; rewrite !H;
    intros H1 H2; inversion H1; inversion H2; subst; simpl; congruence.
Qed.

(** C4, as amended.  When every required field of a record resolves (and
    the optional ones resolve or fail for a missing attribute),
    [transform] returns a document whose keys are exactly the bound
    fields that resolve to a non-empty value; the two system fields are
    bound fields of every indexer and are written under the same rule.
    Each key holds the value its field resolved to during the call; a
    field whose value is empty is not a key. *)
Theorem transform_document_keys base meta methods schema c0 self c1 record c :
  BaseIndexer_init base meta methods schema c0 = (Ok self, c1) ->
  (forall name f, fields self !! name = Some f -> passes self record c name f) ->
  exists doc c',
    transform self record c = (Ok doc, c') /\
    (is_Some (fields self !! "meta_type_s") /\
     is_Some (fields self !! "meta_index_timestamp_dt")) /\
    (forall name,
       is_Some (doc !! name) <->
       exists f, fields self !! name = Some f /\ resolves_nonempty self record c name f) /\
    (forall name v,
       doc !! name = Some v ->
       truthy v = true /\
       exists f c2 c3, fields self !! name = Some f /\ later c c2 /\ later c3 c' /\
                       resolve self name f record c2 = (Ok v, c3)).
Proof.
  intros Hinit Hpass.
  destruct (transform_loop_total self record (map_to_list (fields self))) with
    (doc0 := (∅ : document)) (c := c) as (doc & c' & Hrun).
  { intros name f cx Hin. apply elem_of_map_to_list in Hin.
    eapply passes_anytime. by apply Hpass. }
  exists doc, c'. split; [exact Hrun|].
  destruct (BaseIndexer_init_system_fields _ _ _ _ _ _ _ Hinit) as [Hty Hts].
  split; [rewrite Hty, Hts; eauto|].
  apply transform_sound in Hrun as [Hl Hdoc]. split.
  - intros name. destruct (Hdoc name) as [Hout Hin]. split.
    + intros [v Hv]. destruct (fields self !! name) as [f|] eqn:Hf.
      * exists f. split; [done|].
        destruct (Hin f eq_refl) as [(v' & c2 & c3 & _ & _ & Hres & Hd)|(_ & Hd & _)];
          [|congruence].
        destruct (truthy v') eqn:Htr; [|congruence].
        apply (resolve_nonempty_anytime _ _ _ _ c2). by exists v', c3.
      * rewrite Hout in Hv; [discriminate|done].
    + intros (f & Hf & Hne).
      destruct (Hin f Hf) as [(v' & c2 & c3 & _ & _ & Hres & Hd)|(_ & _ & msg & c2 & Hfail)].
      * destruct Hne as (v & cx & Hres' & Htr).
        rewrite Hd, <- (resolve_deterministic_truthy _ _ _ _ _ _ _ _ _ _ Hres' Hres), Htr.
        eauto.
      * apply (resolve_nonempty_anytime _ _ _ _ _ c2) in Hne as (v & cx & Hres & _).
        congruence.
  - intros name v Hv. destruct (Hdoc name) as [Hout Hin].
    destruct (fields self !! name) as [f|] eqn:Hf;
      [|rewrite Hout in Hv; [discriminate|done]].
    destruct (Hin f eq_refl) as [(v' & c2 & c3 & Hl2 & Hl3 & Hres & Hd)|(_ & Hd & _)];
      [|congruence].
    destruct (truthy v') eqn:Htr; [|congruence].
    assert (v' = v) as -> by congruence.
    split; [done|]. exists f, c2, c3. auto.
Qed.

(** The bound fields of the sample indexer, in the order [transform]
    visits them. *)
Lemma sample_fields tag :
  map_to_list (fields (Sample.indexer_of (Sample.make tag))) =
  [("meta_index_timestamp_dt",
    bind_field Sample.schema "meta_index_timestamp_dt" (Field_init None false));
   ("meta_type_s", bind_field Sample.schema "meta_type_s" (Field_init None false));
   ("id", bind_field Sample.schema "id" (Field_init (Some "id") false));
   ("title", bind_field Sample.schema "title" (Field_init (Some "title") false))].
Proof. vm_compute. reflexivity. Qed.

Lemma sample_fields_resolve tag c name f :
  fields (Sample.indexer_of (Sample.make tag)) !! name = Some f ->
  exists v c', resolve (Sample.indexer_of (Sample.make tag)) name f
                 (Sample.record 1 (VStr "A")) c = (Ok v, c').
Proof.
  intros Hf. apply elem_of_map_to_list in Hf. rewrite sample_fields in Hf.
  repeat (apply elem_of_cons in Hf as [Hf|Hf]; [inversion Hf; subst; clear Hf|]).
  - eexists _, _. reflexivity.
  - eexists _, _. vm_compute. reflexivity.
  - eexists _, _. vm_compute. reflexivity.
  - eexists _, _. vm_compute. reflexivity.
  - by apply elem_of_nil in Hf.
Qed.

Lemma transform_document_keys_witness :
  let self := Sample.articles in
  let record := Sample.record 1 (VStr "A") in
  let c := snd (Sample.make "article") in
  exists doc c',
    transform self record c = (Ok doc, c') /\
    (is_Some (fields self !! "meta_type_s") /\
     is_Some (fields self !! "meta_index_timestamp_dt")) /\
    (forall name,
       is_Some (doc !! name) <->
       exists f, fields self !! name = Some f /\ resolves_nonempty self record c name f) /\
    (forall name v,
       doc !! name = Some v ->
       truthy v = true /\
       exists f c2 c3, fields self !! name = Some f /\ later c c2 /\ later c3 c' /\
                       resolve self name f record c2 = (Ok v, c3)).
Proof.
  intros self record c.
  apply (transform_document_keys
           (Meta.fields_of (snd Sample.article_defined) Sample.Article)
           (Meta.meta_of (snd Sample.article_defined) Sample.Article)
           Sample.no_methods Sample.schema Sample.clock self c record c).
  - vm_compute. reflexivity.
  - intros name f Hf. left. by apply sample_fields_resolve.
Defined.

(** With the empty type tag every field of the record resolves, yet the
    system field [meta_type_s] is not among the keys of the document. *)
Lemma empty_type_tag_keys :
  exists self c1 doc c',
    Sample.make "" = (Ok self, c1) /\
    (forall name f, fields self !! name = Some f ->
       exists v c2, resolve self name f (Sample.record 1 (VStr "A")) c1 = (Ok v, c2)) /\
    transform self (Sample.record 1 (VStr "A")) c1 = (Ok doc, c') /\
    map fst (map_to_list doc) = ["meta_index_timestamp_dt"; "id"; "title"].
Proof.
  exists (Sample.indexer_of (Sample.make "")), (snd (Sample.make "")),
    (Sample.document_of (transform (Sample.indexer_of (Sample.make ""))
                           (Sample.record 1 (VStr "A")) (snd (Sample.make "")))),
    (snd (transform (Sample.indexer_of (Sample.make ""))
            (Sample.record 1 (VStr "A")) (snd (Sample.make "")))).
  split; [vm_compute; reflexivity|].
  split; [intros name f; apply sample_fields_resolve|].
  split; vm_compute; reflexivity.
Qed.

(** ** Fields that fail to resolve *)

Lemma transform_loop_propagates self record items name f msg :
  NoDup items.*1 ->
  (name, f) ∈ items ->
  optional f = false ->
  (forall c, resolve self name f record c = (Raise (AttributeError msg), c)) ->
  (forall n g c, (n, g) ∈ items -> n ≠ name -> passes self record c n g) ->
  forall doc0 c, exists c',
    for_each items (transform_field self record) doc0 c = (Raise (AttributeError msg), c').
Proof.
  intros Hnd Hin Hreq Hfail. induction items as [|[n g] rest IH]; intros Hpass doc0 c.
  - by apply elem_of_nil in Hin.
  - rewrite fmap_cons in Hnd. apply NoDup_cons in Hnd as [Hfresh Hnd]. simpl in Hfresh.
    simpl. unfold bind, transform_field at 1. simpl.
    apply elem_of_cons in Hin as [Heq|Hin].
    + inversion Heq; subst. rewrite Hfail, Hreq. eauto.
    + assert (Hne : n ≠ name).
      { intros ->. apply Hfresh. apply list_elem_of_fmap. by exists (name, f). }
      destruct (Hpass n g c) as [(v & c1 & ->)|(Hopt & m & c1 & ->)];
        [apply list_elem_of_here|done| |]; [|rewrite Hopt];
        (apply IH; [done|done|]; intros; apply Hpass; [by apply list_elem_of_further|done]).
Qed.

(** C5.  Let the resolution of a bound field raise [AttributeError] (a
    missing attribute, a path segment reached through [None], a missing
    method).  If the field is optional, no document [transform] returns
    has its key, and the failure alone does not stop [transform]: it
    returns a document whenever the other fields pass.  If the field is
    required, [transform] raises and returns no document; the exception
    is this very [AttributeError] when the other fields pass. *)
Theorem attribute_error_policy self record name f msg c0 c0' :
  fields self !! name = Some f ->
  resolve self name f record c0 = (Raise (AttributeError msg), c0') ->
  forall c,
    let others_pass :=
      forall n g, fields self !! n = Some g -> n ≠ name -> passes self record c n g in
    (optional f = true ->
       (forall doc c', transform self record c = (Ok doc, c') -> doc !! name = None) /\
       (others_pass -> exists doc c', transform self record c = (Ok doc, c'))) /\
    (optional f = false ->
       (exists e c', transform self record c = (Raise e, c')) /\
       (others_pass -> exists c', transform self record c = (Raise (AttributeError msg), c'))).
Proof.
  intros Hf Hraise c others_pass.
  pose proof (resolve_failure_anytime _ _ _ _ _ _ _ Hraise) as Hfail.
  split; intros Hopt.
  - split.
    + intros doc c' Hrun. apply transform_sound in Hrun as [_ Hdoc].
      destruct (Hdoc name) as [_ Hin].
      destruct (Hin f Hf) as [(v & c2 & c3 & _ & _ & Hres & _)|(_ & Hd & _)]; [|done].
      rewrite Hfail in Hres. discriminate.
    + intros Hothers. apply transform_loop_total. intros n g cx Hin.
      apply elem_of_map_to_list in Hin.
      destruct (decide (n = name)) as [->|Hne].
      * assert (g = f) as -> by congruence. right. split; [done|]. exists msg, cx. apply Hfail.
      * eapply passes_anytime. by apply Hothers.
  - split.
    + eapply transform_loop_raises; [|exact Hopt|exact Hfail].
      by apply elem_of_map_to_list.
    + intros Hothers.
      eapply transform_loop_propagates;
        [apply NoDup_fst_map_to_list|by apply elem_of_map_to_list|exact Hopt|exact Hfail|].
      intros n g cx Hin Hne. apply elem_of_map_to_list in Hin.
      eapply passes_anytime. by apply Hothers.
Qed.

Lemma attribute_error_policy_witness :
  let self := Sample.articles in
  let record := VObj [("id", Attr (VInt 2))] in
  let f := bind_field Sample.schema "title" (Field_init (Some "title") false) in
  let c := snd (Sample.make "article") in
  let others_pass :=
    forall n g, fields self !! n = Some g -> n ≠ "title" -> passes self record c n g in
  (optional f = true ->
     (forall doc c', transform self record c = (Ok doc, c') -> doc !! "title" = None) /\
     (others_pass -> exists doc c', transform self record c = (Ok doc, c'))) /\
  (optional f = false ->
     (exists e c', transform self record c = (Raise e, c')) /\
     (others_pass ->
      exists c', transform self record c = (Raise (AttributeError "title"), c'))).
Proof.
  intros self record f c.
  apply (attribute_error_policy self record "title" f "title" c c).
  - vm_compute. reflexivity.
  - vm_compute. reflexivity.
Defined.

(** The article [{id: 1, title: "A"}] becomes a document with both
    fields and the two system fields. *)
Example article_document :
  map_to_list (Sample.document_of
    (transform Sample.articles (Sample.record 1 (VStr "A")) (snd (Sample.make "article"))))
  = [("meta_index_timestamp_dt", VTime 1001); ("meta_type_s", VStr "article");
     ("id", VInt 1); ("title", VStr "A")].
Proof. vm_compute. reflexivity. Qed.

(** The optional field [subtitle] of [Review] is left out when the
    record has no such attribute. *)
Example optional_field_is_omitted :
  map fst (map_to_list (Sample.document_of
    (transform Sample.reviews (Sample.record 1 (VStr "A")) Sample.clock)))
  = ["meta_index_timestamp_dt"; "meta_type_s"; "id"; "title"].
Proof. vm_compute. reflexivity. Qed.

(** A required field whose path ends in [None] does not raise: the
    value is empty and the key is left out. *)
Example required_field_ending_in_None :
  map fst (map_to_list (Sample.document_of
    (transform Sample.articles (Sample.record 2 VNone) Sample.clock)))
  = ["meta_index_timestamp_dt"; "meta_type_s"; "id"].
Proof. vm_compute. reflexivity. Qed.

(** ** The reindex run *)

Section Run.

Context {B : Type} `{Interface B}.

Lemma reindex_step_ok self st record c b st' c' b' :
  reindex_step self st record (c, b) = (Ok st', (c', b')) ->
  exists doc,
    transform self record c = (Ok doc, c') /\
    fst st' = fst st + 1 /\
    ((fst st mod COMMIT_CHUNK_SIZE = 0 /\ interface_add (snd st) b = Ok b' /\
      snd st' = [doc]) \/
     (fst st mod COMMIT_CHUNK_SIZE ≠ 0 /\ b' = b /\ snd st' = snd st ++ [doc])).
Proof.
  unfold reindex_step, bind.
  destruct (Z.eqb_spec (fst st mod COMMIT_CHUNK_SIZE) 0) as [Hz|Hnz].
  - unfold call_interface; simpl.
    destruct (interface_add (snd st) b) as [b1|e]; [|discriminate].
    unfold ret, in_time; simpl.
    destruct (transform self record c) as [[doc|e] c1]; [|discriminate].
    intros Heq; inversion Heq; subst; simpl. exists doc. split_and!; auto.
  - unfold ret, in_time; simpl.
    destruct (transform self record c) as [[doc|e] c1]; [|discriminate].
    intros Heq; inversion Heq; subst; simpl. exists doc. split_and!; auto.
Qed.

Lemma reindex_loop_ok self records :
  forall st c b st' c' b',
    for_each records (reindex_step self) st (c, b) = (Ok st', (c', b')) ->
    exists docs batches,
      transform_all self records c = (Ok docs, c') /\
      add_batches batches b = Ok b' /\
      concat batches ++ snd st' = snd st ++ docs /\
      fst st' = fst st + Z.of_nat (length records).
Proof.
  induction records as [|r rest IH]; intros st c b st' c' b' Hrun; simpl in Hrun.
  - inversion Hrun; subst. exists [], []. simpl.
    split_and!; [reflexivity|reflexivity|by rewrite app_nil_r|lia].
  - unfold bind in Hrun.
    destruct (reindex_step self st r (c, b)) as [[st1|e] [c1 b1]] eqn:Hstep; [|discriminate].
    apply reindex_step_ok in Hstep as (doc & Hdoc & Hcount & Hflush).
    apply IH in Hrun as (docs & batches & Hdocs & Hadds & Hcat & Hn).
    simpl. unfold bind. rewrite Hdoc, Hdocs. unfold ret.
    destruct Hflush as [(_ & Hadd & Hpool)|(_ & -> & Hpool)].
    + exists (doc :: docs), (snd st :: batches). simpl. rewrite Hadd.
      split_and!; [reflexivity|exact Hadds| |lia].
      rewrite <- app_assoc, Hcat, Hpool. reflexivity.
    + exists (doc :: docs), batches.
      split_and!; [reflexivity|exact Hadds| |lia].
      rewrite Hcat, Hpool, <- app_assoc. reflexivity.
Qed.

Lemma add_batches_app batches1 batches2 b b1 :
  add_batches batches1 b = Ok b1 ->
  add_batches (batches1 ++ batches2) b = add_batches batches2 b1.
Proof.
  revert b. induction batches1 as [|docs rest IH]; intros b Hadd; simpl in *.
  - by inversion Hadd.
  - destruct (interface_add docs b) as [b'|e]; [by apply IH | discriminate].
Qed.

(** A run that returns has transformed every record in order, added
    the documents in batches, committed once, and then issued the delete
    for the stale documents of its type. *)
Lemma reindex_ok self records c b n c' b' :
  reindex self records (c, b) = (Ok n, (c', b')) ->
  exists docs batches tag b1 b2,
    transform_all self records c = (Ok docs, c') /\
    concat batches = docs /\
    add_batches batches b = Ok b1 /\
    interface_commit b1 = Ok b2 /\
    _meta self !! "type" = Some tag /\
    interface_delete_queries (stale tag (index_timestamp self)) b2 = Ok b' /\
    n = Z.of_nat (length records).
Proof.
  unfold reindex, bind.
  destruct (for_each records (reindex_step self) (0, []) (c, b)) as [[st|e] [c1 b1]] eqn:Hloop;
    [|discriminate].
  apply reindex_loop_ok in Hloop as (docs & batches & Hdocs & Hadds & Hcat & Hn).
  simpl in Hcat, Hn.
  destruct (snd st) as [|d pool] eqn:Hpool; cbn [length Nat.eqb negb].
  - unfold ret at 1, call_interface at 1. cbn [fst snd].
    destruct (interface_commit b1) as [b3|e] eqn:Hcommit; [|discriminate].
    unfold getitem. destruct (_meta self !! "type") as [tag|]; [|discriminate].
    unfold ret at 1, call_interface. cbn [fst snd].
    destruct (interface_delete_queries _ b3) as [b4|e] eqn:Hdel; [|discriminate].
    unfold ret. intros Heq; inversion Heq; subst n c' b'.
    exists docs, batches, tag, b1, b3.
    rewrite app_nil_r in Hcat.
    split_and!; auto; lia.
  - unfold call_interface at 1. cbn [fst snd].
    destruct (interface_add (d :: pool) b1) as [b2|e] eqn:Hadd; [|discriminate].
    unfold call_interface at 1. cbn [fst snd].
    destruct (interface_commit b2) as [b3|e] eqn:Hcommit; [|discriminate].
    unfold getitem. destruct (_meta self !! "type") as [tag|]; [|discriminate].
    unfold ret at 1, call_interface. cbn [fst snd].
    destruct (interface_delete_queries _ b3) as [b4|e] eqn:Hdel; [|discriminate].
    unfold ret. intros Heq; inversion Heq; subst n c' b'.
    exists docs, (batches ++ [d :: pool]), tag, b2, b3.
    split_and!; auto; try lia.
    + rewrite concat_app. simpl. by rewrite app_nil_r.
    + rewrite (add_batches_app _ _ _ _ Hadds). simpl. by rewrite Hadd.
Qed.

End Run.

(** ** What a run asks of the backend *)

Lemma add_batches_recorder batches (log : list call) :
  add_batches batches log = Ok (log ++ map AddCall batches).
Proof.
  revert log. induction batches as [|docs rest IH]; intros log; simpl.
  - by rewrite app_nil_r.
  - rewrite IH, <- app_assoc. reflexivity.
Qed.

Lemma reindex_recorder self records c (log : list call) n c' log' :
  reindex self records (c, log) = (Ok n, (c', log')) ->
  exists batches tag,
    _meta self !! "type" = Some tag /\
    log' = log ++ map AddCall batches ++
             [CommitCall; DeleteCall (stale tag (index_timestamp self))] /\
    n = Z.of_nat (length records).
Proof.
  intros Hrun.
  apply reindex_ok in Hrun as (docs & batches & tag & b1 & b2 & _ & _ & Hadds & Hc & Htag & Hd & Hn).
  rewrite add_batches_recorder in Hadds. simpl in Hc, Hd.
  inversion Hadds; inversion Hc; inversion Hd; subst.
  exists batches, tag. split_and!; auto.
  rewrite <- !app_assoc. reflexivity.
Qed.

(** The calls of the loop, by kind and size, depend only on how many
    records the source yields. *)
Lemma reindex_loop_shape self1 self2 records1 :
  forall records2 st1 st2 c1 c2 (log1 log2 : list call) st1' st2' c1' c2' log1' log2',
    length records1 = length records2 ->
    fst st1 = fst st2 ->
    length (snd st1) = length (snd st2) ->
    map shape_of log1 = map shape_of log2 ->
    for_each records1 (reindex_step self1) st1 (c1, log1) = (Ok st1', (c1', log1')) ->
    for_each records2 (reindex_step self2) st2 (c2, log2) = (Ok st2', (c2', log2')) ->
    fst st1' = fst st2' /\
    length (snd st1') = length (snd st2') /\
    map shape_of log1' = map shape_of log2'.
Proof.
  induction records1 as [|r1 rest1 IH];
    intros [|r2 rest2] st1 st2 c1 c2 log1 log2 st1' st2' c1' c2' log1' log2'
           Hlen Hcount Hpool Hlog Hrun1 Hrun2; try discriminate.
  - inversion Hrun1; inversion Hrun2; subst. auto.
  - simpl in Hrun1, Hrun2. unfold bind in Hrun1, Hrun2.
    destruct (reindex_step self1 st1 r1 (c1, log1)) as [[sa|e] [ca la]] eqn:Hs1; [|discriminate].
    destruct (reindex_step self2 st2 r2 (c2, log2)) as [[sb|e] [cb lb]] eqn:Hs2; [|discriminate].
    apply reindex_step_ok in Hs1 as (d1 & _ & Hn1 & Hf1).
    apply reindex_step_ok in Hs2 as (d2 & _ & Hn2 & Hf2).
    eapply (IH rest2 sa sb); [..|exact Hrun1|exact Hrun2].
    + simpl in Hlen. lia.
    + lia.
    + destruct Hf1 as [(Hz1 & _ & ->)|(Hz1 & _ & ->)], Hf2 as [(Hz2 & _ & ->)|(Hz2 & _ & ->)];
        try (rewrite Hcount in Hz1; contradiction); [reflexivity|].
      rewrite !length_app, Hpool. reflexivity.
    + destruct Hf1 as [(Hz1 & Ha1 & _)|(Hz1 & -> & _)], Hf2 as [(Hz2 & Ha2 & _)|(Hz2 & -> & _)];
        try (rewrite Hcount in Hz1; contradiction); [|exact Hlog].
      simpl in Ha1, Ha2. inversion Ha1; inversion Ha2; subst.
      rewrite !map_app, Hlog. simpl. by rewrite Hpool.
Qed.

Lemma reindex_shape self1 self2 records1 records2 c1 c2 (log1 log2 : list call)
    n1 n2 c1' c2' log1' log2' :
  length records1 = length records2 ->
  map shape_of log1 = map shape_of log2 ->
  reindex self1 records1 (c1, log1) = (Ok n1, (c1', log1')) ->
  reindex self2 records2 (c2, log2) = (Ok n2, (c2', log2')) ->
  n1 = n2 /\ map shape_of log1' = map shape_of log2'.
Proof.
  intros Hlen Hlog. unfold reindex, bind.
  destruct (for_each records1 (reindex_step self1) (0, []) (c1, log1))
    as [[st1|e] [ca la]] eqn:Hl1; [|discriminate].
  destruct (for_each records2 (reindex_step self2) (0, []) (c2, log2))
    as [[st2|e] [cb lb]] eqn:Hl2; [|discriminate].
  destruct (reindex_loop_shape _ _ _ _ _ _ _ _ _ _ _ _ _ _ _ _
              Hlen eq_refl eq_refl Hlog Hl1 Hl2) as (Hn & Hp & Hs).
  rewrite <- Hp.
  unfold getitem.
  destruct (_meta self1 !! "type") as [t1|], (_meta self2 !! "type") as [t2|];
    destruct (negb (Nat.eqb (length (snd st1)) 0));
    unfold call_interface, ret; simpl; try discriminate;
    intros H1 H2; inversion H1; inversion H2; subst;
    (split; [exact Hn|]); rewrite !map_app, Hs; simpl; try reflexivity.
  by rewrite Hp.
Qed.

(** C1.  A run over 2500 records makes four add calls, not three: an
    empty one before the first record, then 1000, 1000 and 500
    documents; after them one commit and one delete, and no commit in
    between.  The run returns 2500. *)
Theorem reindex_2500_records self records c n c' log :
  length records = 2500%nat ->
  reindex self records (c, []) = (Ok n, (c', log)) ->
  map shape_of log
  = [Added 0; Added 1000; Added 1000; Added 500; Committed; Deleted] /\
  n = 2500.
Proof.
  intros Hlen Hrun.
  pose (out := reindex (B := list call) Sample.articles (Sample.records 2500)
                 (snd (Sample.make "article"), [])).
  assert (Hr : (fst out, map shape_of (snd (snd out)))
               = (Ok 2500,
                  [Added 0; Added 1000; Added 1000; Added 500; Committed; Deleted]))
    by (vm_compute; reflexivity).
  assert (Hsample : reindex (B := list call) Sample.articles (Sample.records 2500)
                      (snd (Sample.make "article"), []) = out) by reflexivity.
  clearbody out. destruct out as [r [cs ls]].
  cbn [fst snd] in Hr. injection Hr as -> Hshape.
  assert (Hl : length (Sample.records 2500) = length records).
  { rewrite Hlen. vm_compute. reflexivity. }
  destruct (reindex_shape _ _ _ _ _ _ _ _ _ _ _ _ _ _ Hl eq_refl Hsample Hrun) as [Hn Hs].
  split; [by rewrite <- Hs|congruence].
Qed.

Lemma reindex_2500_records_witness :
  let out := reindex (B := list call) Sample.articles (Sample.records 2500)
               (snd (Sample.make "article"), []) in
  map shape_of (snd (snd out))
  = [Added 0; Added 1000; Added 1000; Added 500; Committed; Deleted] /\
  2500 = 2500.
Proof.
  intros out.
  assert (Hn : fst out = Ok 2500) by (vm_compute; reflexivity).
  apply (reindex_2500_records Sample.articles (Sample.records 2500)
           (snd (Sample.make "article")) 2500 (fst (snd out)) (snd (snd out))).
  - vm_compute. reflexivity.
  - change (out = (Ok 2500, (fst (snd out), snd (snd out)))).
    rewrite <- Hn. clearbody out. destruct out as [r [c' log]]. reflexivity.
Defined.

(** ** The delete for stale documents *)

Lemma value_eqb_str x s : value_eqb x (VStr s) = true <-> x = VStr s.
Proof.
  destruct x; simpl; try (split; [discriminate|intros; discriminate]).
  rewrite String.eqb_eq. split; [by intros ->|by intros [= ->]].
Qed.

Lemma matches_stale tag watermark d :
  matches (stale tag watermark) d = true <->
  (exists x, d !! "meta_type_s" = Some x /\ value_eqb x tag = true) /\
  (exists t, d !! "meta_index_timestamp_dt" = Some (VTime t) /\ t < watermark).
Proof.
  unfold stale. simpl. rewrite andb_true_iff. split.
  - intros [Hty Hts]. split.
    + destruct (d !! "meta_type_s") as [x|]; [eauto|discriminate].
    + destruct (d !! "meta_index_timestamp_dt") as [[]|]; try discriminate.
      simpl in Hts. apply Z.ltb_lt in Hts. eauto.
  - intros [(x & -> & Hx) (t & -> & Ht)]. split; [exact Hx|].
    simpl. by apply Z.ltb_lt.
Qed.

Lemma matches_stale_str s watermark d :
  matches (stale (VStr s) watermark) d = true <->
  d !! "meta_type_s" = Some (VStr s) /\
  exists t, d !! "meta_index_timestamp_dt" = Some (VTime t) /\ t < watermark.
Proof.
  rewrite matches_stale. split.
  - intros [(x & Hx & Heq) Hts]. apply value_eqb_str in Heq as ->. auto.
  - intros [Hty Hts]. split; [|exact Hts]. exists (VStr s). split; [exact Hty|].
    by apply value_eqb_str.
Qed.

Lemma matches_stale_fresh tag watermark d t :
  d !! "meta_index_timestamp_dt" = Some (VTime t) ->
  watermark <= t ->
  matches (stale tag watermark) d = false.
Proof.
  intros Hts Hle. apply not_true_is_false. rewrite matches_stale.
  intros [_ (t' & Ht' & Hlt)]. rewrite Hts in Ht'. inversion Ht'; subst. lia.
Qed.

Lemma index_delete_lookup q ix i d :
  stored (index_delete q ix) !! i = Some d <->
  stored ix !! i = Some d /\ matches q d = false.
Proof. unfold index_delete. simpl. by rewrite map_lookup_filter_Some. Qed.

(** C2.  A run that returns has issued, after its add calls, one commit
    and then one delete, and nothing else.  The delete carries the
    conjunction of [meta_type_s] equal to the type tag and
    [meta_index_timestamp_dt] less than the indexer's timestamp; for a
    string tag it selects exactly the documents that carry this tag and
    a timestamp strictly before that of the indexer, and it selects no
    document whose timestamp is at or after it. *)
Theorem reindex_reconciliation self records c n c' log :
  reindex self records (c, []) = (Ok n, (c', log)) ->
  exists batches tag,
    _meta self !! "type" = Some tag /\
    log = map AddCall batches ++
            [CommitCall;
             DeleteCall (QAnd (QEq "meta_type_s" tag)
                              (QLt "meta_index_timestamp_dt"
                                   (VTime (index_timestamp self))))] /\
    (forall s d, tag = VStr s ->
       matches (stale tag (index_timestamp self)) d = true <->
       d !! "meta_type_s" = Some (VStr s) /\
       exists t, d !! "meta_index_timestamp_dt" = Some (VTime t) /\
                 t < index_timestamp self) /\
    (forall d t,
       d !! "meta_index_timestamp_dt" = Some (VTime t) ->
       index_timestamp self <= t ->
       matches (stale tag (index_timestamp self)) d = false).
Proof.
  intros Hrun. apply reindex_recorder in Hrun as (batches & tag & Htag & -> & _).
  exists batches, tag. split_and!; auto.
  - intros s d ->. apply matches_stale_str.
  - intros d t. apply matches_stale_fresh.
Qed.

Lemma reindex_reconciliation_witness :
  let out := reindex (B := list call) Sample.articles (Sample.records 3)
               (snd (Sample.make "article"), []) in
  exists batches tag,
    _meta Sample.articles !! "type" = Some tag /\
    snd (snd out) = map AddCall batches ++
            [CommitCall;
             DeleteCall (QAnd (QEq "meta_type_s" tag)
                              (QLt "meta_index_timestamp_dt"
                                   (VTime (index_timestamp Sample.articles))))] /\
    (forall s d, tag = VStr s ->
       matches (stale tag (index_timestamp Sample.articles)) d = true <->
       d !! "meta_type_s" = Some (VStr s) /\
       exists t, d !! "meta_index_timestamp_dt" = Some (VTime t) /\
                 t < index_timestamp Sample.articles) /\
    (forall d t,
       d !! "meta_index_timestamp_dt" = Some (VTime t) ->
       index_timestamp Sample.articles <= t ->
       matches (stale tag (index_timestamp Sample.articles)) d = false).
Proof.
  intros out.
  apply (reindex_reconciliation Sample.articles (Sample.records 3)
           (snd (Sample.make "article")) 3 (fst (snd out)) (snd (snd out))).
  vm_compute. reflexivity.
Defined.

(** ** The watermark *)

(** C7, as amended.  The timestamp in the delete predicate is the clock
    reading [__init__] took when the indexer was constructed; [reindex]
    takes no reading of its own, and every invocation on the same
    indexer issues the delete with this same timestamp. *)
Theorem reindex_watermark base meta methods schema c0 self c1
    records1 records2 ca n1 cb log1 n2 cc log2 :
  BaseIndexer_init base meta methods schema c0 = (Ok self, c1) ->
  reindex self records1 (ca, []) = (Ok n1, (cb, log1)) ->
  reindex self records2 (cb, log1) = (Ok n2, (cc, log2)) ->
  exists tag batches1 batches2,
    let q := QAnd (QEq "meta_type_s" tag)
                  (QLt "meta_index_timestamp_dt" (VTime (readings c0 (tick c0)))) in
    log1 = map AddCall batches1 ++ [CommitCall; DeleteCall q] /\
    log2 = log1 ++ map AddCall batches2 ++ [CommitCall; DeleteCall q].
Proof.
  intros Hinit Hrun1 Hrun2.
  apply BaseIndexer_init_ok in Hinit as (_ & Hstart & _).
  apply reindex_recorder in Hrun1 as (batches1 & tag & Htag & -> & _).
  apply reindex_recorder in Hrun2 as (batches2 & tag' & Htag' & -> & _).
  assert (tag' = tag) as -> by congruence.
  exists tag, batches1, batches2. unfold stale. rewrite Hstart. split; reflexivity.
Qed.

Lemma reindex_watermark_witness :
  let run1 := reindex (B := list call) Sample.articles (Sample.records 2)
                (snd (Sample.make "article"), []) in
  let run2 := reindex (B := list call) Sample.articles (Sample.records 3)
                (fst (snd run1), snd (snd run1)) in
  exists tag batches1 batches2,
    let q := QAnd (QEq "meta_type_s" tag)
                  (QLt "meta_index_timestamp_dt"
                       (VTime (readings Sample.clock (tick Sample.clock)))) in
    snd (snd run1) = map AddCall batches1 ++ [CommitCall; DeleteCall q] /\
    snd (snd run2) = snd (snd run1) ++ map AddCall batches2 ++ [CommitCall; DeleteCall q].
Proof.
  intros run1 run2.
  apply (reindex_watermark
           (Meta.fields_of (snd Sample.article_defined) Sample.Article)
           (Meta.meta_of (snd Sample.article_defined) Sample.Article)
           Sample.no_methods Sample.schema Sample.clock Sample.articles
           (snd (Sample.make "article"))
           (Sample.records 2) (Sample.records 3)
           (snd (Sample.make "article")) 2 (fst (snd run1)) (snd (snd run1))
           3 (fst (snd run2)) (snd (snd run2))).
  - vm_compute. reflexivity.
  - vm_compute. reflexivity.
  - vm_compute. reflexivity.
Defined.

(** Two runs of the same indexer: the second starts when the clock
    reads 1003, and its delete still carries 1000, the reading taken at
    construction, as the delete of the first run did. *)
Lemma second_run_reuses_watermark :
  let run1 := reindex (B := list call) Sample.articles (Sample.records 2)
                (snd (Sample.make "article"), []) in
  let run2 := reindex (B := list call) Sample.articles (Sample.records 2)
                (fst (snd run1), []) in
  fst run1 = Ok 2 /\
  fst run2 = Ok 2 /\
  readings (fst (snd run1)) (tick (fst (snd run1))) = 1003 /\
  last (snd (snd run1)) = Some (DeleteCall (stale (VStr "article") 1000)) /\
  last (snd (snd run2)) = Some (DeleteCall (stale (VStr "article") 1000)).
Proof. vm_compute. repeat split; reflexivity. Qed.

(** ** An empty source *)

(** C10, as amended.  With no record to index, a run asks nothing to
    be added, commits once and issues the one delete, in this order, and
    returns 0.  On an index the delete removes the documents that carry
    the type tag and a timestamp strictly before the one the indexer
    took when it was constructed, and no other: a document of another
    type, and a document stamped at or after the construction of the
    indexer -- such as the ones this indexer has written itself -- is
    still stored afterwards. *)
Theorem reindex_empty_source self c tag :
  _meta self !! "type" = Some tag ->
  let q := stale tag (index_timestamp self) in
  reindex self [] (c, ([] : list call)) = (Ok 0, (c, [CommitCall; DeleteCall q])) /\
  forall ix : index,
    reindex self [] (c, ix) = (Ok 0, (c, index_delete q ix)) /\
    (forall i d, stored (index_delete q ix) !! i = Some d <->
                 stored ix !! i = Some d /\ matches q d = false) /\
    (forall s i d t,
       tag = VStr s ->
       stored ix !! i = Some d ->
       d !! "meta_type_s" = Some (VStr s) ->
       d !! "meta_index_timestamp_dt" = Some (VTime t) ->
       t < index_timestamp self ->
       stored (index_delete q ix) !! i = None) /\
    (forall i d t,
       stored ix !! i = Some d ->
       d !! "meta_index_timestamp_dt" = Some (VTime t) ->
       index_timestamp self <= t ->
       stored (index_delete q ix) !! i = Some d).
Proof.
  intros Htag q. split; [|intros ix; split_and!].
  - unfold reindex, bind, call_interface, getitem, ret. simpl. rewrite Htag. reflexivity.
  - unfold reindex, bind, call_interface, getitem, ret. simpl. rewrite Htag. reflexivity.
  - intros i d. apply index_delete_lookup.
  - intros s i d t -> Hi Hty Hts Hlt.
    destruct (stored (index_delete q ix) !! i) as [d'|] eqn:Hd'; [|reflexivity].
    apply index_delete_lookup in Hd' as [Hi' Hm].
    assert (d' = d) as -> by congruence.
    assert (Hsel : matches q d = true) by (apply matches_stale_str; eauto).
    congruence.
  - intros i d t Hi Hts Hle. apply index_delete_lookup. split; [exact Hi|].
    exact (matches_stale_fresh tag (index_timestamp self) d t Hts Hle).
Qed.

Lemma reindex_empty_source_witness :
  let self := Sample.articles in
  let c := snd (Sample.make "article") in
  let q := stale (VStr "article") (index_timestamp self) in
  reindex self [] (c, ([] : list call)) = (Ok 0, (c, [CommitCall; DeleteCall q])) /\
  forall ix : index,
    reindex self [] (c, ix) = (Ok 0, (c, index_delete q ix)) /\
    (forall i d, stored (index_delete q ix) !! i = Some d <->
                 stored ix !! i = Some d /\ matches q d = false) /\
    (forall s i d t,
       VStr "article" = VStr s ->
       stored ix !! i = Some d ->
       d !! "meta_type_s" = Some (VStr s) ->
       d !! "meta_index_timestamp_dt" = Some (VTime t) ->
       t < index_timestamp self ->
       stored (index_delete q ix) !! i = None) /\
    (forall i d t,
       stored ix !! i = Some d ->
       d !! "meta_index_timestamp_dt" = Some (VTime t) ->
       index_timestamp self <= t ->
       stored (index_delete q ix) !! i = Some d).
Proof.
  intros self c.
  apply (reindex_empty_source self c (VStr "article")).
  vm_compute. reflexivity.
Defined.

(** An indexer that has indexed three articles is run again when its
    source has become empty: the run returns 0 after its commit and its
    delete, and the three articles, which carry the type tag of the
    indexer, are still in the index.  They were stamped after the
    indexer was constructed, and the delete selects timestamps before
    its construction. *)
Lemma empty_source_keeps_own_documents :
  let run1 := reindex Sample.articles (Sample.records 3)
                (snd (Sample.make "article"), Sample.old_index) in
  let run2 := reindex Sample.articles [] (snd run1) in
  fst run1 = Ok 3 /\
  count_of_type (VStr "article") (snd (snd run1)) = 3%nat /\
  fst run2 = Ok 0 /\
  count_of_type (VStr "article") (snd (snd run2)) = 3%nat /\
  snd (snd run2) = snd (snd run1) /\
  match stored (snd (snd run2)) !! inl 1 with
  | Some d => d !! "meta_type_s"
  | None => None
  end = Some (VStr "article").
Proof. vm_compute. repeat split; reflexivity. Qed.

(** ** Running twice *)

Section Twice.

Variables (base : gmap string Field) (meta : gmap string value).
Variables (methods : string -> option (value -> result value)) (schema : Schema).
Variables (c0 c1 : time) (self : indexer).
Hypothesis Hmono : monotone c0.
Hypothesis Hbound : system_fields_bound schema methods.
Hypothesis Hinit : BaseIndexer_init base meta methods schema c0 = (Ok self, c1).

(** No document of this indexer is stale for this indexer. *)
Lemma transform_not_stale record c doc c' tag :
  later c1 c ->
  transform self record c = (Ok doc, c') ->
  matches (stale tag (index_timestamp self)) doc = false.
Proof.
  intros Hlater Hrun.
  destruct (BaseIndexer_init_system_fields _ _ _ _ _ _ _ Hinit) as [_ Hts].
  pose proof Hinit as Hi. apply BaseIndexer_init_ok in Hi as (Hc1 & Hstart & _ & Hmeth & _).
  apply transform_sound in Hrun as [_ Hdoc].
  destruct (Hdoc "meta_index_timestamp_dt") as [_ Hin].
  destruct (Hin _ Hts) as [(v & c2 & c3 & Hl2 & _ & Hres & Hv)|(Hopt & _)]; [|discriminate].
  rewrite (resolve_meta_index_timestamp _ _ Hbound) in Hres by done.
  inversion Hres; subst v c3. simpl in Hv.
  eapply matches_stale_fresh; [exact Hv|].
  destruct Hlater as [Hr1 Ht1], Hl2 as [Hr2 Ht2].
  rewrite Hstart, Hr2, Hr1, Hc1. simpl. apply Hmono. rewrite Hc1 in Ht1. simpl in Ht1. lia.
Qed.

(** Every document of this indexer has the same [meta_type_s]. *)
Lemma transform_meta_type_s record c doc c' :
  transform self record c = (Ok doc, c') ->
  exists tag, _meta self !! "type" = Some tag /\
              doc !! "meta_type_s" = if truthy tag then Some tag else None.
Proof.
  intros Hrun.
  destruct (BaseIndexer_init_system_fields _ _ _ _ _ _ _ Hinit) as [Hty _].
  pose proof Hinit as Hi. apply BaseIndexer_init_ok in Hi as (_ & _ & _ & Hmeth & _).
  apply transform_sound in Hrun as [_ Hdoc].
  destruct (Hdoc "meta_type_s") as [_ Hin].
  destruct (Hin _ Hty) as [(v & c2 & c3 & _ & _ & Hres & Hv)|(Hopt & _)]; [|discriminate].
  rewrite (resolve_meta_type _ _ Hbound) in Hres by done.
  unfold getitem in Hres. destruct (_meta self !! "type") as [tag|]; [|discriminate].
  inversion Hres; subst. eauto.
Qed.

End Twice.

(** Transforming the same record at two moments gives two documents
    that differ at most in clock readings. *)
Lemma transform_twice self record ca ca' cb cb' d1 d2 name :
  transform self record ca = (Ok d1, ca') ->
  transform self record cb = (Ok d2, cb') ->
  d1 !! name = d2 !! name \/
  exists t1 t2, d1 !! name = Some (VTime t1) /\ d2 !! name = Some (VTime t2).
Proof.
  intros H1 H2.
  apply transform_sound in H1 as [_ H1]. apply transform_sound in H2 as [_ H2].
  destruct (H1 name) as [Hout1 Hin1], (H2 name) as [Hout2 Hin2].
  destruct (fields self !! name) as [f|] eqn:Hf;
    [|left; rewrite Hout1, Hout2; done].
  specialize (Hin1 f eq_refl). specialize (Hin2 f eq_refl).
  destruct (resolve_cases self name f record) as [[r0 Hp]|Hc].
  - left.
    destruct Hin1 as [(v1 & x1 & y1 & _ & _ & R1 & D1)|(_ & D1 & m1 & x1 & R1)];
      destruct Hin2 as [(v2 & x2 & y2 & _ & _ & R2 & D2)|(_ & D2 & m2 & x2 & R2)];
      rewrite Hp in R1, R2; simplify_eq; congruence.
  - destruct Hin1 as [(v1 & x1 & y1 & _ & _ & R1 & D1)|(_ & D1 & m1 & x1 & R1)];
      destruct Hin2 as [(v2 & x2 & y2 & _ & _ & R2 & D2)|(_ & D2 & m2 & x2 & R2)];
      rewrite Hc in R1, R2; inversion R1; inversion R2; subst.
    right. simpl in D1, D2. eauto.
Qed.

Lemma transform_twice_id self record ca ca' cb cb' d1 d2 key :
  transform self record ca = (Ok d1, ca') ->
  transform self record cb = (Ok d2, cb') ->
  doc_id key d1 = doc_id key d2.
Proof.
  intros H1 H2. unfold doc_id.
  destruct (transform_twice _ _ _ _ _ _ _ _ key H1 H2) as [->|(t1 & t2 & -> & ->)];
    reflexivity.
Qed.

(** The documents of a batch come from [transform], one per record, in
    order, each at its own moment. *)
Lemma transform_all_ok self records :
  forall c docs c',
    transform_all self records c = (Ok docs, c') ->
    later c c' /\
    Forall2 (fun record doc => exists ca cb,
               later c ca /\ transform self record ca = (Ok doc, cb)) records docs.
Proof.
  induction records as [|r rest IH]; intros c docs c' Hrun; simpl in Hrun.
  - inversion Hrun; subst. split; [apply later_refl|constructor].
  - unfold bind in Hrun.
    destruct (transform self r c) as [[d|e] ca] eqn:Hd; [|discriminate].
    destruct (transform_all self rest ca) as [[ds|e] cb] eqn:Hds; [|discriminate].
    inversion Hrun; subst.
    pose proof (proj1 (transform_sound _ _ _ _ _ Hd)) as Hl1.
    apply IH in Hds as [Hl2 Hall]. split; [eapply later_trans; eauto|].
    constructor.
    + exists c, ca. split; [apply later_refl|exact Hd].
    + eapply Forall2_impl; [exact Hall|].
      intros record doc (x & y & Hx & Ht). exists x, y. split; [|exact Ht].
      eapply later_trans; eauto.
Qed.

(** ** The index *)

Lemma store_docs_app key docs1 docs2 m m1 :
  store_docs key docs1 m = Some m1 ->
  store_docs key (docs1 ++ docs2) m = store_docs key docs2 m1.
Proof.
  revert m. induction docs1 as [|d rest IH]; intros m Hst; simpl in *.
  - by inversion Hst.
  - destruct (doc_id key d); [by apply IH | discriminate].
Qed.

Lemma add_batches_index batches (ix ix' : index) :
  add_batches batches ix = Ok ix' ->
  index_add (concat batches) ix = Ok ix'.
Proof.
  revert ix. induction batches as [|docs rest IH]; intros ix Hadd; simpl in Hadd.
  - inversion Hadd; subst. by destruct ix'.
  - unfold index_add in Hadd at 1.
    destruct (store_docs (unique_key ix) docs (stored ix)) as [m1|] eqn:Hst; [|discriminate].
    apply IH in Hadd. unfold index_add in *. simpl in *.
    by rewrite (store_docs_app _ _ _ _ _ Hst).
Qed.

(** A property of every stored document and of every added one holds
    of every document stored afterwards. *)
Lemma store_docs_all (P : document -> Prop) key docs :
  forall m m',
    (forall i d, m !! i = Some d -> P d) ->
    Forall P docs ->
    store_docs key docs m = Some m' ->
    forall i d, m' !! i = Some d -> P d.
Proof.
  induction docs as [|d0 rest IH]; intros m m' Hm Hdocs Hst; simpl in Hst.
  - by inversion Hst; subst.
  - destruct (doc_id key d0) as [i0|]; [|discriminate].
    apply Forall_cons in Hdocs as [Hd0 Hrest].
    eapply IH; [|exact Hrest|exact Hst].
    intros i d. rewrite lookup_insert. case_decide; [|by apply Hm].
    by intros [= <-].
Qed.

Lemma store_docs_kept key docs :
  forall m m' i x,
    store_docs key docs m = Some m' ->
    m !! i = Some x ->
    m' !! i = Some x \/ exists d, d ∈ docs /\ m' !! i = Some d.
Proof.
  induction docs as [|d0 rest IH]; intros m m' i x Hst Hi; simpl in Hst.
  - inversion Hst; subst. auto.
  - destruct (doc_id key d0) as [i0|]; [|discriminate].
    destruct (decide (i0 = i)) as [->|Hne].
    + destruct (IH _ _ i d0 Hst) as [H|(d & Hd & H)]; [apply lookup_insert_eq|..].
      * right. exists d0. split; [apply list_elem_of_here|done].
      * right. exists d. split; [by apply list_elem_of_further|done].
    + destruct (IH _ _ i x Hst) as [H|(d & Hd & H)]; [by rewrite lookup_insert_ne|..].
      * by left.
      * right. exists d. split; [by apply list_elem_of_further|done].
Qed.

(** After an add, the identifier of each added document holds one of
    the added documents. *)
Lemma store_docs_present key docs :
  forall m m' d i,
    store_docs key docs m = Some m' ->
    d ∈ docs ->
    doc_id key d = Some i ->
    exists d', d' ∈ docs /\ m' !! i = Some d'.
Proof.
  induction docs as [|d0 rest IH]; intros m m' d i Hst Hin Hid; simpl in Hst.
  - by apply elem_of_nil in Hin.
  - destruct (doc_id key d0) as [i0|] eqn:Hid0; [|discriminate].
    apply elem_of_cons in Hin as [->|Hin].
    + assert (i0 = i) as -> by congruence.
      destruct (store_docs_kept _ _ _ _ i d0 Hst) as [H|(d' & Hd' & H)];
        [apply lookup_insert_eq|..].
      * exists d0. split; [apply list_elem_of_here|done].
      * exists d'. split; [by apply list_elem_of_further|done].
    + destruct (IH _ _ _ _ Hst Hin Hid) as (d' & Hd' & H).
      exists d'. split; [by apply list_elem_of_further|done].
Qed.

(** Overwriting documents by documents of the same [meta_type_s] does
    not change how many documents of a type there are. *)
Lemma store_docs_count tag key mt docs :
  forall m m',
    (forall d, d ∈ docs -> d !! "meta_type_s" = mt) ->
    (forall d i, d ∈ docs -> doc_id key d = Some i ->
                 exists d', m !! i = Some d' /\ d' !! "meta_type_s" = mt) ->
    store_docs key docs m = Some m' ->
    size (filter (fun kv => matches (QEq "meta_type_s" tag) (snd kv) = true) m')
    = size (filter (fun kv => matches (QEq "meta_type_s" tag) (snd kv) = true) m).
Proof.
  induction docs as [|d0 rest IH]; intros m m' Hmt Hpre Hst; simpl in Hst.
  - by inversion Hst; subst.
  - destruct (doc_id key d0) as [i0|] eqn:Hid0; [|discriminate].
    destruct (Hpre d0 i0) as (d' & Hd' & Hmt'); [apply list_elem_of_here|done|].
    pose proof (Hmt d0 (list_elem_of_here _ _)) as Hmt0.
    transitivity (size (filter (fun kv : (Z + string) * document =>
                                  matches (QEq "meta_type_s" tag) (snd kv) = true)
                               (<[i0:=d0]> m))).
    + eapply IH; [| |exact Hst].
      * intros d Hd. apply Hmt. by apply list_elem_of_further.
      * intros d i Hd Hid. destruct (decide (i0 = i)) as [->|Hne].
        -- exists d0. by rewrite lookup_insert_eq.
        -- rewrite lookup_insert_ne by done.
           apply (Hpre d i); [by apply list_elem_of_further|done].
    + destruct (matches (QEq "meta_type_s" tag) d0) eqn:Hm0.
      * rewrite map_filter_insert_True by done.
        apply map_size_insert_Some. exists d'. apply map_lookup_filter_Some. split; [done|].
        simpl in *. by rewrite Hmt', <- Hmt0.
      * rewrite map_filter_insert_False by (cbn [snd]; rewrite Hm0; discriminate).
        rewrite map_filter_delete, delete_id; [done|].
        apply map_lookup_filter_None. right. intros x Hx. simpl.
        assert (x = d') as -> by congruence.
        simpl in Hm0. rewrite Hmt', <- Hmt0. congruence.
Qed.

Lemma index_add_ok docs ix ix' :
  index_add docs ix = Ok ix' ->
  unique_key ix' = unique_key ix /\
  store_docs (unique_key ix) docs (stored ix) = Some (stored ix').
Proof.
  unfold index_add. destruct (store_docs _ docs _) as [m|]; [|discriminate].
  intros [= <-]. auto.
Qed.

(** A delete that selects nothing leaves the index as it is. *)
Lemma index_delete_nothing q ix :
  (forall i d, stored ix !! i = Some d -> matches q d = false) ->
  index_delete q ix = ix.
Proof.
  intros Hnone. destruct ix as [key m]. unfold index_delete. simpl in *. f_equal.
  apply map_filter_id. intros i d Hd. by apply (Hnone i).
Qed.

Lemma Forall2_same_source {X A} (P Q : X -> A -> Prop) xs :
  forall l1 l2,
    Forall2 P xs l1 -> Forall2 Q xs l2 ->
    forall b, b ∈ l2 -> exists x a, a ∈ l1 /\ P x a /\ Q x b.
Proof.
  induction xs as [|x xs IH]; intros l1 l2 H1 H2 b Hb.
  - inversion H2; subst. by apply elem_of_nil in Hb.
  - inversion H1 as [|? a ? l1' Pa H1']; inversion H2 as [|? b' ? l2' Qb H2']; subst.
    apply elem_of_cons in Hb as [->|Hb].
    + exists x, a. split; [apply list_elem_of_here|done].
    + destruct (IH _ _ H1' H2' b Hb) as (x' & a' & Ha' & HP & HQ).
      exists x', a'. split; [by apply list_elem_of_further|done].
Qed.

Lemma Forall2_right {X A} (P : X -> A -> Prop) (Q : A -> Prop) xs l :
  (forall x a, P x a -> Q a) -> Forall2 P xs l -> Forall Q l.
Proof. intros HPQ H. induction H; constructor; eauto. Qed.

(** Two runs in succession of the same indexer over the same records,
    both of which return: the delete of the second removes no document,
    and the number of documents of each type is the same after both. *)
Lemma reindex_twice_returned base meta methods schema c0 self c1
    records ca (ix0 : index) n1 cb ix1 n2 cc ix2 :
  monotone c0 ->
  system_fields_bound schema methods ->
  BaseIndexer_init base meta methods schema c0 = (Ok self, c1) ->
  later c1 ca ->
  reindex self records (ca, ix0) = (Ok n1, (cb, ix1)) ->
  reindex self records (cb, ix1) = (Ok n2, (cc, ix2)) ->
  (forall tag, count_of_type tag ix2 = count_of_type tag ix1) /\
  (exists docs, transform_all self records cb = (Ok docs, cc) /\
                index_add docs ix1 = Ok ix2) /\
  n2 = n1.
Proof.
  intros Hmono Hbound Hinit Hlater Hrun1 Hrun2.
  apply reindex_ok in Hrun1
    as (docs1 & batches1 & tag & ixa & ixa' & Hdocs1 & Hcat1 & Hadd1 & Hc1 & Htag & Hdel1 & Hn1).
  apply reindex_ok in Hrun2
    as (docs2 & batches2 & tag' & ixb & ixb' & Hdocs2 & Hcat2 & Hadd2 & Hc2 & Htag' & Hdel2 & Hn2).
  assert (tag' = tag) as -> by congruence.
  simpl in Hc1, Hc2, Hdel1, Hdel2.
  injection Hc1 as <-. injection Hc2 as <-. injection Hdel1 as <-. injection Hdel2 as <-.
  apply add_batches_index in Hadd1, Hadd2. rewrite Hcat1 in Hadd1. rewrite Hcat2 in Hadd2.
  set (q := stale tag (index_timestamp self)) in *.
  apply transform_all_ok in Hdocs1 as Hall1. destruct Hall1 as [Hl1 Hall1].
  apply transform_all_ok in Hdocs2 as Hall2. destruct Hall2 as [Hl2 Hall2].
  assert (Hlater2 : later c1 cb) by (eapply later_trans; eauto).
  (* none of the documents of either run is stale *)
  assert (Hfresh1 : Forall (fun d => matches q d = false) docs1).
  { eapply Forall2_right; [|exact Hall1]. intros r d (x & y & Hx & Ht).
    eapply (transform_not_stale _ _ _ _ _ _ _ Hmono Hbound Hinit); [|exact Ht].
    exact (later_trans _ _ _ Hlater Hx). }
  assert (Hfresh2 : Forall (fun d => matches q d = false) docs2).
  { eapply Forall2_right; [|exact Hall2]. intros r d (x & y & Hx & Ht).
    eapply (transform_not_stale _ _ _ _ _ _ _ Hmono Hbound Hinit); [|exact Ht].
    exact (later_trans _ _ _ Hlater2 Hx). }
  (* they all carry the same type *)
  set (mt := if truthy tag then Some tag else None).
  assert (Hmt : forall r d x y, transform self r x = (Ok d, y) -> d !! "meta_type_s" = mt).
  { intros r d x y Ht.
    destruct (transform_meta_type_s _ _ _ _ _ _ _ Hbound Hinit _ _ _ _ Ht) as (t & Ht1 & Ht2).
    assert (t = tag) as -> by congruence. exact Ht2. }
  apply index_add_ok in Hadd1 as [Hkey1 Hst1].
  pose proof Hadd2 as Hadd2'. apply index_add_ok in Hadd2' as [Hkey2 Hst2].
  simpl in Hkey2, Hst2. rewrite Hkey1 in Hst2.
  (* the second delete selects nothing *)
  assert (Hnone : forall i d, stored ixb !! i = Some d -> matches q d = false).
  { eapply (store_docs_all (fun d => matches q d = false)); [|exact Hfresh2|exact Hst2].
    intros i d Hd. apply map_lookup_filter_Some in Hd as [_ Hd]. exact Hd. }
  rewrite (index_delete_nothing q ixb Hnone).
  split_and!; [|eauto|lia].
  intros tag0. unfold count_of_type.
  eapply (store_docs_count tag0 _ mt docs2); [| |exact Hst2].
  - intros d Hd. apply list_elem_of_lookup in Hd as [k Hk].
    destruct (Forall2_lookup_r _ _ _ _ _ Hall2 Hk) as (r & _ & x & y & _ & Ht).
    eapply Hmt; eauto.
  - intros d2 i Hd2 Hid.
    destruct (Forall2_same_source _ _ _ _ _ Hall1 Hall2 d2 Hd2)
      as (r & d1 & Hd1 & (x1 & y1 & _ & Ht1) & (x2 & y2 & _ & Ht2)).
    rewrite <- (transform_twice_id _ _ _ _ _ _ _ _ (unique_key ix0) Ht1 Ht2) in Hid.
    destruct (store_docs_present _ _ _ _ _ _ Hst1 Hd1 Hid) as (d' & Hd' & Hi).
    exists d'. split.
    + apply map_lookup_filter_Some. split; [exact Hi|].
      rewrite Forall_forall in Hfresh1. by apply Hfresh1.
    + apply list_elem_of_lookup in Hd' as [k Hk].
      destruct (Forall2_lookup_r _ _ _ _ _ Hall1 Hk) as (r' & _ & x & y & _ & Ht).
      eapply Hmt; eauto.
Qed.

(** ** Runs that return *)

(** A record that can be transformed at one moment can be transformed
    at any other. *)
Lemma transform_anytime self record ca doc ca' cb :
  transform self record ca = (Ok doc, ca') ->
  exists doc' cb', transform self record cb = (Ok doc', cb').
Proof.
  intros Hrun. apply transform_sound in Hrun as [_ Hdoc].
  apply transform_loop_total. intros name f c Hin. apply elem_of_map_to_list in Hin.
  destruct (Hdoc name) as [_ Hf].
  destruct (Hf f Hin) as [(v & c2 & c3 & _ & _ & Hres & _)|(Hopt & _ & msg & c2 & Hres)].
  - apply (passes_anytime _ _ c2). left. eauto.
  - apply (passes_anytime _ _ c2). right. eauto.
Qed.

Lemma transform_all_anytime self records :
  forall ca docs ca' cb,
    transform_all self records ca = (Ok docs, ca') ->
    exists docs' cb', transform_all self records cb = (Ok docs', cb').
Proof.
  induction records as [|r rest IH]; intros ca docs ca' cb Hrun; simpl in *.
  - eexists _, _. reflexivity.
  - unfold bind in *.
    destruct (transform self r ca) as [[d|e] c2] eqn:Hd; [|discriminate].
    destruct (transform_all self rest c2) as [[ds|e] c3] eqn:Hds; [|discriminate].
    destruct (transform_anytime _ _ _ _ _ cb Hd) as (d' & cb1 & ->).
    destruct (IH _ _ _ cb1 Hds) as (ds' & cb2 & ->).
    eexists _, _. reflexivity.
Qed.

Section Returns.

Context {B : Type} `{Interface B}.

(** What the backend accepts: an invariant [I] of its state and a
    condition [D] on documents under which every call succeeds. *)
Variables (I : B -> Prop) (D : document -> Prop).
Hypothesis add_accepted :
  forall docs b, I b -> Forall D docs -> exists b', interface_add docs b = Ok b' /\ I b'.
Hypothesis commit_accepted :
  forall b, I b -> exists b', interface_commit b = Ok b' /\ I b'.
Hypothesis delete_accepted :
  forall q b, I b -> exists b', interface_delete_queries q b = Ok b'.

Lemma reindex_loop_returns self records :
  forall st c b docs c',
    transform_all self records c = (Ok docs, c') ->
    I b -> Forall D (snd st) -> Forall D docs ->
    exists st' b',
      for_each records (reindex_step self) st (c, b) = (Ok st', (c', b')) /\
      I b' /\ Forall D (snd st').
Proof.
  induction records as [|r rest IH]; intros st c b docs c' Hdocs Hb Hpool HD; simpl in *.
  - inversion Hdocs; subst. exists st, b. auto.
  - unfold bind in Hdocs.
    destruct (transform self r c) as [[d|e] c2] eqn:Hd; [|discriminate].
    destruct (transform_all self rest c2) as [[ds|e] c3] eqn:Hds; [|discriminate].
    inversion Hdocs; subst. apply Forall_cons in HD as [HDd HDds].
    unfold bind at 1. unfold reindex_step at 1. unfold bind.
    destruct (Z.eqb (fst st mod COMMIT_CHUNK_SIZE) 0).
    + destruct (add_accepted (snd st) b Hb Hpool) as (b1 & Hadd & Hb1).
      unfold call_interface at 1. simpl. rewrite Hadd.
      unfold ret at 1, in_time. simpl. rewrite Hd. unfold ret at 1.
      apply (IH (fst st + 1, [d]) c2 b1 ds c'); auto.
      simpl. by constructor.
    + unfold ret at 1, in_time. simpl. rewrite Hd. unfold ret at 1.
      apply (IH (fst st + 1, snd st ++ [d]) c2 b ds c'); auto.
      simpl. apply Forall_app. auto.
Qed.

(** A run returns, with the number of records, when every record can be
    transformed, the type tag is declared and the backend accepts the
    documents. *)
Lemma reindex_returns self records c b docs c' tag :
  transform_all self records c = (Ok docs, c') ->
  Forall D docs ->
  I b ->
  _meta self !! "type" = Some tag ->
  exists n b', reindex self records (c, b) = (Ok n, (c', b')).
Proof.
  intros Hdocs HD Hb Htag.
  destruct (reindex_loop_returns self records (0, []) c b docs c' Hdocs Hb)
    as (st & b1 & Hloop & Hb1 & Hpool); [constructor|exact HD|].
  unfold reindex, bind. rewrite Hloop.
  assert (Hflush : exists b2,
            (if negb (Nat.eqb (length (snd st)) 0)
             then call_interface (interface_add (snd st)) else ret tt) (c', b1)
            = (Ok tt, (c', b2)) /\ I b2).
  { destruct (snd st) as [|d pool] eqn:Hp; simpl.
    - exists b1. auto.
    - destruct (add_accepted (d :: pool) b1 Hb1) as (b2 & Hadd & Hb2); [exact Hpool|].
      exists b2. unfold call_interface. simpl. by rewrite Hadd. }
  destruct Hflush as (b2 & -> & Hb2).
  destruct (commit_accepted b2 Hb2) as (b3 & Hc & Hb3).
  unfold call_interface at 1. simpl. rewrite Hc.
  unfold getitem. rewrite Htag. unfold ret at 1.
  destruct (delete_accepted (QAnd (QEq "meta_type_s" tag)
              (QLt "meta_index_timestamp_dt" (VTime (index_timestamp self)))) b3 Hb3)
    as (b4 & Hdel).
  unfold call_interface. simpl. rewrite Hdel. unfold ret. eauto.
Qed.

End Returns.

(** The recording backend accepts everything. *)
Lemma reindex_returns_recorder self records c (log : list call) docs c' tag :
  transform_all self records c = (Ok docs, c') ->
  _meta self !! "type" = Some tag ->
  exists n log', reindex self records (c, log) = (Ok n, (c', log')).
Proof.
  intros Hdocs Htag.
  apply (reindex_returns (fun _ => True) (fun _ => True)) with (docs := docs) (tag := tag);
    auto; simpl; eauto.
  apply Forall_forall. auto.
Qed.

(** The index accepts documents that have an identifier. *)
Lemma store_docs_accepts key docs :
  forall m,
    Forall (fun d => is_Some (doc_id key d)) docs ->
    is_Some (store_docs key docs m).
Proof.
  induction docs as [|d rest IH]; intros m Hids; simpl; [eauto|].
  apply Forall_cons in Hids as [[i ->] Hrest]. by apply IH.
Qed.

Lemma store_docs_ids key docs :
  forall m m',
    store_docs key docs m = Some m' ->
    Forall (fun d => is_Some (doc_id key d)) docs.
Proof.
  induction docs as [|d rest IH]; intros m m' Hst; simpl in Hst; [constructor|].
  destruct (doc_id key d) as [i|] eqn:Hid; [|discriminate].
  constructor; [rewrite Hid; eauto|by eapply IH].
Qed.

Lemma reindex_returns_index self records c (ix : index) docs c' tag :
  transform_all self records c = (Ok docs, c') ->
  Forall (fun d => is_Some (doc_id (unique_key ix) d)) docs ->
  _meta self !! "type" = Some tag ->
  exists n ix', reindex self records (c, ix) = (Ok n, (c', ix')).
Proof.
  intros Hdocs Hids Htag.
  apply (reindex_returns (fun b => unique_key b = unique_key ix)
           (fun d => is_Some (doc_id (unique_key ix) d)))
    with (docs := docs) (tag := tag); auto; simpl; eauto.
  intros ds b Hb Hds. unfold index_add. rewrite Hb.
  destruct (store_docs_accepts _ ds (stored b) Hds) as [m ->]. eauto.
Qed.

(** C6.  Two runs in succession of the same indexer over the same
    records, on a clock that never goes backwards and with the system
    fields bound to the built-in methods.  When the first run returns,
    so does the second, with the same count; its delete removes no
    document, so that the index after it is the index after the first
    run with the second run's documents written over it; and for every
    type tag the index holds as many documents after the second run as
    after the first. *)
Theorem reindex_twice base meta methods schema c0 self c1
    records ca (ix0 : index) n1 cb ix1 :
  monotone c0 ->
  system_fields_bound schema methods ->
  BaseIndexer_init base meta methods schema c0 = (Ok self, c1) ->
  later c1 ca ->
  reindex self records (ca, ix0) = (Ok n1, (cb, ix1)) ->
  exists cc ix2,
    reindex self records (cb, ix1) = (Ok n1, (cc, ix2)) /\
    (forall tag, count_of_type tag ix2 = count_of_type tag ix1) /\
    (exists docs, transform_all self records cb = (Ok docs, cc) /\
                  index_add docs ix1 = Ok ix2).
Proof.
  intros Hmono Hbound Hinit Hlater Hrun1.
  assert (Hrun2 : exists n2 cc ix2, reindex self records (cb, ix1) = (Ok n2, (cc, ix2))).
  { pose proof Hrun1 as Hr.
    apply reindex_ok in Hr
      as (docs1 & batches1 & tag & ixa & ixa' & Hdocs1 & Hcat1 & Hadd1 & Hc1 & Htag & Hdel1 & _).
    simpl in Hc1, Hdel1. injection Hc1 as <-. injection Hdel1 as <-.
    apply add_batches_index in Hadd1. rewrite Hcat1 in Hadd1.
    apply index_add_ok in Hadd1 as [Hkey1 Hst1]. apply store_docs_ids in Hst1.
    destruct (transform_all_anytime _ _ _ _ _ cb Hdocs1) as (docs2 & cc & Hdocs2).
    destruct (reindex_returns_index self records cb
                (index_delete (stale tag (index_timestamp self)) ixa) docs2 cc tag)
      as (n2 & ix2 & Hrun2); [exact Hdocs2| |exact Htag|eauto].
    simpl. rewrite Hkey1.
    apply transform_all_ok in Hdocs1 as [_ Hall1]. apply transform_all_ok in Hdocs2 as [_ Hall2].
    apply Forall_forall. intros d2 Hd2.
    destruct (Forall2_same_source _ _ _ _ _ Hall1 Hall2 d2 Hd2)
      as (r & d1 & Hd1 & (x1 & y1 & _ & Ht1) & (x2 & y2 & _ & Ht2)).
    rewrite <- (transform_twice_id _ _ _ _ _ _ _ _ (unique_key ix0) Ht1 Ht2).
    rewrite Forall_forall in Hst1. by apply Hst1. }
  destruct Hrun2 as (n2 & cc & ix2 & Hrun2).
  destruct (reindex_twice_returned _ _ _ _ _ _ _ _ _ _ _ _ _ _ _ _
              Hmono Hbound Hinit Hlater Hrun1 Hrun2) as (Hcount & Hdocs & ->).
  exists cc, ix2. auto.
Qed.

Lemma reindex_twice_witness :
  let run1 := reindex Sample.articles (Sample.records 3)
                (snd (Sample.make "article"), Sample.old_index) in
  exists cc ix2,
    reindex Sample.articles (Sample.records 3) (fst (snd run1), snd (snd run1))
    = (Ok 3, (cc, ix2)) /\
    (forall tag, count_of_type tag ix2 = count_of_type tag (snd (snd run1))) /\
    (exists docs,
       transform_all Sample.articles (Sample.records 3) (fst (snd run1)) = (Ok docs, cc) /\
       index_add docs (snd (snd run1)) = Ok ix2).
Proof.
  intros run1.
  apply (reindex_twice
           (Meta.fields_of (snd Sample.article_defined) Sample.Article)
           (Meta.meta_of (snd Sample.article_defined) Sample.Article)
           Sample.no_methods Sample.schema Sample.clock Sample.articles
           (snd (Sample.make "article"))
           (Sample.records 3) (snd (Sample.make "article")) Sample.old_index
           3 (fst (snd run1)) (snd (snd run1))).
  - intros i j Hij. simpl. lia.
  - split_and!; [| |reflexivity|reflexivity].
    + exists (Sample.dynamic_field "meta_type"). split_and!; reflexivity.
    + exists (Sample.dynamic_field "meta_index_timestamp"). split_and!; reflexivity.
  - vm_compute. reflexivity.
  - split; [reflexivity | apply Nat.le_refl].
  - vm_compute. reflexivity.
Defined.

(** The first of the two runs removes the old article, the second
    removes nothing: three articles after each. *)
Example reindex_twice_counts :
  let run1 := reindex Sample.articles (Sample.records 3)
                (snd (Sample.make "article"), Sample.old_index) in
  let run2 := reindex Sample.articles (Sample.records 3) (snd run1) in
  count_of_type (VStr "article") Sample.old_index = 1%nat /\
  count_of_type (VStr "article") (snd (snd run1)) = 3%nat /\
  count_of_type (VStr "article") (snd (snd run2)) = 3%nat /\
  stored (snd (snd run1)) !! inl 99 = None.
Proof. vm_compute. repeat split; reflexivity. Qed.

(** * Further properties *)

(** ** Class definition *)

Section ClassDefinition.

Import Meta.

Lemma class_body_deterministic_meta attrs bf lm h h' :
  (forall a, ("Meta", a) ∈ attrs -> exists f, a = AField f) ->
  class_body attrs bf lm h = (Ok tt, h') ->
  read_meta h' lm = read_meta h lm.
Proof.
  intros Hno Hrun.
  destruct (class_body_without_Meta attrs bf lm h Hno) as (h'' & Hrun' & Hmeta).
  congruence.
Qed.

(** The options after a class body that declares [Meta] once: the
    public entries of [Meta] over what was there. *)
Lemma class_body_meta attrs bf lm h h' d :
  NoDup attrs.*1 ->
  ("Meta", AObject d) ∈ attrs ->
  class_body attrs bf lm h = (Ok tt, h') ->
  read_meta h' lm = public_items d ∪ read_meta h lm.
Proof.
  revert h. induction attrs as [|[n obj] rest IH]; intros h Hnd Hin Hrun.
  - by apply elem_of_nil in Hin.
  - rewrite fmap_cons in Hnd. apply NoDup_cons in Hnd as [Hfresh Hnd]. simpl in Hfresh.
    apply elem_of_cons in Hin as [Heq|Hin].
    + inversion Heq; subst. simpl in Hrun.
      destruct (read_meta (update_meta lm (public_items d) h) lm !! "type"); [|discriminate].
      assert (Hno : forall a, ("Meta", a) ∈ rest -> exists f, a = AField f).
      { intros a Ha. exfalso. apply Hfresh. apply list_elem_of_fmap. by exists ("Meta", a). }
      rewrite (class_body_deterministic_meta _ _ _ _ _ Hno Hrun).
      apply read_meta_update_meta_eq.
    + assert (Hne : n ≠ "Meta").
      { intros ->. apply Hfresh. apply list_elem_of_fmap. by exists ("Meta", AObject d). }
      apply String.eqb_neq in Hne. simpl in Hrun. rewrite Hne in Hrun.
      destruct obj as [f|d'|].
      * rewrite (IH _ Hnd Hin Hrun). by rewrite read_meta_update_field.
      * by apply IH.
      * by apply IH.
Qed.

(** A [Meta] without [type], on options that have none, stops the class
    body with the configuration error. *)
Lemma class_body_Meta_without_type attrs bf lm h d :
  NoDup attrs.*1 ->
  ("Meta", AObject d) ∈ attrs ->
  public_items d !! "type" = None ->
  read_meta h lm !! "type" = None ->
  exists h',
    class_body attrs bf lm h
    = (Raise (Exception
         "Sunburnt indexer requires a type meta to be declared for grouping indices"), h').
Proof.
  revert h. induction attrs as [|[n obj] rest IH]; intros h Hnd Hin Hpub Hold.
  - by apply elem_of_nil in Hin.
  - rewrite fmap_cons in Hnd. apply NoDup_cons in Hnd as [Hfresh Hnd]. simpl in Hfresh.
    apply elem_of_cons in Hin as [Heq|Hin].
    + inversion Heq; subst. simpl.
      rewrite read_meta_update_meta_eq.
      assert ((public_items d ∪ read_meta h lm) !! "type" = None) as ->
        by (by apply lookup_union_None).
      eauto.
    + assert (Hne : n ≠ "Meta").
      { intros ->. apply Hfresh. apply list_elem_of_fmap. by exists ("Meta", AObject d). }
      apply String.eqb_neq in Hne. simpl. rewrite Hne.
      destruct obj as [f|d'|]; apply IH; auto.
Qed.

Lemma alloc_fields_meta d h : meta_dicts (snd (alloc_fields d h)) = meta_dicts h.
Proof. reflexivity. Qed.

(** What [__new__] does for a class with a parent built by the
    metaclass: it fetches (or creates) the two dictionaries, runs the
    class body on them, and copies the fields. *)
Lemma new_class_unfold bases attrs h :
  forallb (fun b => negb (cls_is_indexer b)) bases = false ->
  exists bf lm h2,
    read_fields h2 bf = inherited_fields h bases /\
    read_meta h2 lm = inherited_meta h bases /\
    (forall l, inherited cls_base_fields bases = Some l -> l = bf) /\
    (forall l, inherited cls_meta bases = Some l -> l = lm) /\
    new_class bases attrs h =
      match class_body attrs bf lm h2 with
      | (Raise e, h3) => (Raise e, h3)
      | (Ok _, h3) =>
          (Ok {| cls_is_indexer := true;
                 cls_base_fields := Some (fst (alloc_fields (read_fields h3 bf) h3));
                 cls_meta := Some lm |},
           snd (alloc_fields (read_fields h3 bf) h3))
      end.
Proof.
  intros Hparents. unfold new_class, inherited_fields, inherited_meta. rewrite Hparents.
  destruct (inherited cls_base_fields bases) as [lf|];
    destruct (inherited cls_meta bases) as [lm|]; simpl.
  - exists lf, lm, h. split_and!; [reflexivity|reflexivity|congruence|congruence|].
    destruct (class_body attrs lf lm h) as [[[]|e] h3]; reflexivity.
  - exists lf, (fst (alloc_meta ∅ h)), (snd (alloc_meta ∅ h)).
    split_and!; [reflexivity| |congruence|congruence|].
    + unfold read_meta. simpl. by rewrite lookup_insert_eq.
    + destruct (class_body attrs lf _ _) as [[[]|e] h3]; reflexivity.
  - exists (fst (alloc_fields ∅ h)), lm, (snd (alloc_fields ∅ h)).
    split_and!; [|reflexivity|congruence|congruence|].
    + unfold read_fields. simpl. by rewrite lookup_insert_eq.
    + destruct (class_body attrs _ lm _) as [[[]|e] h3]; reflexivity.
  - exists (fst (alloc_fields ∅ h)), (fst (alloc_meta ∅ (snd (alloc_fields ∅ h)))),
      (snd (alloc_meta ∅ (snd (alloc_fields ∅ h)))).
    split_and!; [| |congruence|congruence|].
    + unfold read_fields. simpl. by rewrite lookup_insert_eq.
    + unfold read_meta. simpl. by rewrite lookup_insert_eq.
    + destruct (class_body attrs _ _ _) as [[[]|e] h3]; reflexivity.
Qed.

Lemma read_fields_alloc_own d h :
  read_fields (snd (alloc_fields d h)) (fst (alloc_fields d h)) = d.
Proof. unfold read_fields, alloc_fields. simpl. by rewrite lookup_insert_eq. Qed.

(** X1.  A class that declares [Meta] and is created has as
    its options the public entries of [Meta] (those whose name does not
    start with two underscores) over the options it inherits, and they
    hold [type]. *)
Theorem new_class_options bases attrs h c h' d :
  forallb (fun b => negb (cls_is_indexer b)) bases = false ->
  NoDup attrs.*1 ->
  ("Meta", AObject d) ∈ attrs ->
  new_class bases attrs h = (Ok c, h') ->
  meta_of h' c = public_items d ∪ inherited_meta h bases /\
  is_Some (meta_of h' c !! "type") /\
  (forall key v, String.prefix "__" key = true -> d !! key = Some v ->
                 meta_of h' c !! key = inherited_meta h bases !! key).
Proof.
  intros Hparents Hnd Hin Hnew.
  destruct (new_class_unfold bases attrs h Hparents) as (bf & lm & h2 & _ & Hm & _ & _ & Heq).
  rewrite Heq in Hnew.
  destruct (class_body attrs bf lm h2) as [[[]|e] h3] eqn:Hbody; [|discriminate].
  assert (Hmc : meta_of h' c = read_meta h3 lm) by (by inversion Hnew; subst).
  rewrite Hmc.
  pose proof (class_body_meta _ _ _ _ _ _ Hnd Hin Hbody) as Hmerge. rewrite Hm in Hmerge.
  split_and!.
  - exact Hmerge.
  - eapply class_body_with_Meta_has_type; eauto.
  - intros key v Hpre Hd. rewrite Hmerge.
    rewrite lookup_union_r; [done|]. unfold public_items.
    apply map_lookup_filter_None. right. intros x _. simpl. by rewrite Hpre.
Qed.

(** X2.  A class that declares a [Meta] without
    [type], and inherits no [type] either, is refused at definition. *)
Theorem new_class_requires_type bases attrs h d :
  forallb (fun b => negb (cls_is_indexer b)) bases = false ->
  NoDup attrs.*1 ->
  ("Meta", AObject d) ∈ attrs ->
  public_items d !! "type" = None ->
  inherited_meta h bases !! "type" = None ->
  fst (new_class bases attrs h)
  = Raise (Exception
      "Sunburnt indexer requires a type meta to be declared for grouping indices").
Proof.
  intros Hparents Hnd Hin Hpub Hinh.
  destruct (new_class_unfold bases attrs h Hparents) as (bf & lm & h2 & _ & Hm & _ & _ & ->).
  rewrite <- Hm in Hinh.
  destruct (class_body_Meta_without_type attrs bf lm h2 d Hnd Hin Hpub Hinh) as (h3 & ->).
  reflexivity.
Qed.


Lemma class_body_fields_kept attrs bf lm h h' r name :
  (forall f, (name, AField f) ∉ attrs) ->
  class_body attrs bf lm h = (r, h') ->
  read_fields h' bf !! name = read_fields h bf !! name.
Proof.
  revert h. induction attrs as [|[n obj] rest IH]; intros h Hnot Hrun; simpl in Hrun.
  - by inversion Hrun.
  - assert (Hrest : forall f, (name, AField f) ∉ rest).
    { intros f Hf. apply (Hnot f). by apply list_elem_of_further. }
    destruct obj as [f|d|].
    + rewrite (IH _ Hrest Hrun), read_fields_update_field_eq.
      rewrite lookup_insert_ne; [done|].
      intros ->. apply (Hnot f). apply list_elem_of_here.
    + destruct (String.eqb n "Meta"); [|by eapply IH].
      destruct (read_meta (update_meta lm (public_items d) h) lm !! "type").
      * by rewrite (IH _ Hrest Hrun).
      * by inversion Hrun.
    + destruct (String.eqb n "Meta"); [by inversion Hrun | by eapply IH].
Qed.

Lemma read_fields_alloc_copy h l :
  read_fields (snd (alloc_fields (read_fields h l) h)) l = read_fields h l.
Proof.
  unfold alloc_fields. simpl. unfold read_fields at 1. simpl.
  destruct (decide (fresh (dom (field_dicts h)) = l)) as [->|Hne].
  - by rewrite lookup_insert_eq.
  - by rewrite lookup_insert_ne.
Qed.

(** X3.  The fields of a class that is created are the fields
    its body declares over the fields it inherits. *)
Theorem new_class_fields bases attrs h c h' :
  forallb (fun b => negb (cls_is_indexer b)) bases = false ->
  NoDup attrs.*1 ->
  new_class bases attrs h = (Ok c, h') ->
  forall name,
    (forall f, (name, AField f) ∈ attrs -> fields_of h' c !! name = Some f) /\
    ((forall f, (name, AField f) ∉ attrs) ->
     fields_of h' c !! name = inherited_fields h bases !! name).
Proof.
  intros Hparents Hnd Hnew name.
  destruct (new_class_unfold bases attrs h Hparents) as (bf & lm & h2 & Hf & _ & _ & _ & Heq).
  rewrite Heq in Hnew.
  destruct (class_body attrs bf lm h2) as [[[]|e] h3] eqn:Hbody; [|discriminate].
  assert (Hfc : fields_of h' c = read_fields h3 bf).
  { inversion Hnew; subst. unfold fields_of. simpl. apply read_fields_alloc_own. }
  rewrite Hfc. split.
  - intros f Hin. eapply class_body_declares; eauto.
  - intros Hnot. rewrite (class_body_fields_kept _ _ _ _ _ _ _ Hnot Hbody). by rewrite Hf.
Qed.

(** X4.  After a subclass is defined, its superclass has the
    very same fields and the very same options as the subclass: what the
    subclass declares is written into the dictionaries of the
    superclass. *)
Theorem new_class_shares_configuration parent attrs h c h' lf lm :
  cls_is_indexer parent = true ->
  cls_base_fields parent = Some lf ->
  cls_meta parent = Some lm ->
  new_class [parent] attrs h = (Ok c, h') ->
  fields_of h' parent = fields_of h' c /\ meta_of h' parent = meta_of h' c.
Proof.
  intros Hind Hlf Hlm Hnew.
  assert (Hparents : forallb (fun b => negb (cls_is_indexer b)) [parent] = false).
  { simpl. by rewrite Hind. }
  destruct (new_class_unfold [parent] attrs h Hparents)
    as (bf & lm' & h2 & _ & _ & Hbf & Hlm' & Heq).
  assert (lf = bf) as <-. { apply Hbf. unfold inherited. simpl. by rewrite Hlf. }
  assert (lm = lm') as <-. { apply Hlm'. unfold inherited. simpl. by rewrite Hlm. }
  rewrite Heq in Hnew.
  destruct (class_body attrs lf lm h2) as [[[]|e] h3] eqn:Hbody; [|discriminate].
  injection Hnew as <- <-.
  unfold fields_of, meta_of. rewrite Hlf, Hlm. cbn [cls_base_fields cls_meta from_option]. split.
  - etrans; [apply (read_fields_alloc_copy h3 lf)|].
    symmetry. apply (read_fields_alloc_own (read_fields h3 lf) h3).
  - reflexivity.
Qed.

End ClassDefinition.

(** ** Construction, again *)

Lemma elem_of_keys {A} (m : gmap string A) name :
  name ∈ map fst (map_to_list m) <-> is_Some (m !! name).
Proof.
  split.
  - intros Hin. apply list_elem_of_fmap in Hin as [[n x] [-> Hin]].
    apply elem_of_map_to_list in Hin. eauto.
  - intros [x Hx]. apply list_elem_of_fmap. exists (name, x).
    split; [done|]. by apply elem_of_map_to_list.
Qed.

Lemma check_fields_ok schema names :
  check_fields schema names = Ok tt <->
  forall name, name ∈ names -> is_Some (match_field schema name).
Proof.
  unfold check_fields.
  destruct (forallb _ names) eqn:Hall.
  - split; [|done]. intros _ name Hin.
    rewrite forallb_forall in Hall. apply list_elem_of_In in Hin.
    apply Hall in Hin. by apply bool_decide_eq_true in Hin.
  - split; [discriminate|]. intros Hknown. exfalso.
    assert (forallb (fun name => bool_decide (is_Some (match_field schema name))) names = true)
      as Ht; [|congruence].
    apply forallb_forall. intros name Hin. apply bool_decide_eq_true.
    apply Hknown. by apply list_elem_of_In.
Qed.

Lemma check_fields_cases schema names :
  check_fields schema names = Ok tt \/
  check_fields schema names = Raise (Exception "undefined fields").
Proof. unfold check_fields. destruct (forallb _ names); auto. Qed.

(** The names [__init__] hands to [check_fields]. *)
Lemma BaseIndexer_init_check base schema :
  let bound :=
    map_imap (fun name f => Some (bind_field schema name f))
      (<["meta_index_timestamp_dt" := Field_init None false]>
         (<["meta_type_s" := Field_init None false]> base)) in
  check_fields schema (map fst (map_to_list bound)) = Ok tt <->
  (forall name,
     is_Some (base !! name) \/ name = "meta_type_s" \/ name = "meta_index_timestamp_dt" ->
     is_Some (match_field schema name)).
Proof.
  intros bound.
  assert (Hkeys : forall name, name ∈ map fst (map_to_list bound) <->
            (is_Some (base !! name) \/ name = "meta_type_s" \/
             name = "meta_index_timestamp_dt")).
  { intros name. rewrite elem_of_keys. unfold bound. rewrite map_lookup_imap.
    destruct (decide (name = "meta_index_timestamp_dt")) as [->|Hn1].
    { rewrite lookup_insert_eq. simpl. split; eauto. }
    rewrite lookup_insert_ne by done.
    destruct (decide (name = "meta_type_s")) as [->|Hn2].
    { rewrite lookup_insert_eq. simpl. split; eauto. }
    rewrite lookup_insert_ne by done.
    destruct (base !! name) as [g|]; simpl.
    - split; eauto.
    - split.
      + intros [x Hx]. discriminate.
      + intros [[x Hx]|[?|?]]; [discriminate|done|done]. }
  rewrite check_fields_ok. split; intros Hk name Hn; apply Hk; by apply Hkeys.
Qed.

(** X5.  Construction succeeds exactly when the schema knows
    every declared field and the two system fields; otherwise it raises,
    and in both cases the clock has been read once. *)
Theorem BaseIndexer_init_checks_schema base meta methods schema c :
  let known :=
    forall name,
      is_Some (base !! name) \/ name = "meta_type_s" \/ name = "meta_index_timestamp_dt" ->
      is_Some (match_field schema name) in
  (known -> exists self, BaseIndexer_init base meta methods schema c = (Ok self, advance c)) /\
  (~ known ->
   BaseIndexer_init base meta methods schema c
   = (Raise (Exception "undefined fields"), advance c)).
Proof.
  intros known. pose proof (BaseIndexer_init_check base schema) as Hcheck. simpl in Hcheck.
  unfold BaseIndexer_init, bind, now. split.
  - intros Hk. rewrite (proj2 Hcheck Hk). eexists. reflexivity.
  - intros Hk. destruct (check_fields_cases schema
      (map fst (map_to_list (map_imap (fun name f => Some (bind_field schema name f))
         (<["meta_index_timestamp_dt" := Field_init None false]>
            (<["meta_type_s" := Field_init None false]> base)))))) as [Hc|Hc].
    + exfalso. exact (Hk (proj1 Hcheck Hc)).
    + by rewrite Hc.
Qed.

(** X6.  In an indexer that was constructed, the timestamp is
    the clock reading taken at construction; every field carries a
    schema field; the two system fields are required fields without an
    attribute path, whatever the class declares under their names, and
    each carries what the schema says about its own name; and every
    other field keeps its declared attribute path and optionality. *)
Theorem BaseIndexer_init_binds base meta methods schema c self c' :
  BaseIndexer_init base meta methods schema c = (Ok self, c') ->
  index_timestamp self = readings c (tick c) /\
  (forall name f, fields self !! name = Some f -> is_Some (solr_field f)) /\
  (forall name, name = "meta_type_s" \/ name = "meta_index_timestamp_dt" ->
     exists f, fields self !! name = Some f /\
       attribute f = None /\ optional f = false /\
       solr_field f = match_field schema name) /\
  (forall name, name ≠ "meta_type_s" -> name ≠ "meta_index_timestamp_dt" ->
     (fun f => (attribute f, optional f)) <$> fields self !! name
     = (fun f => (attribute f, optional f)) <$> base !! name).
Proof.
  intros Hinit.
  assert (Hknown : forall name,
            is_Some (base !! name) \/ name = "meta_type_s" \/
            name = "meta_index_timestamp_dt" ->
            is_Some (match_field schema name)).
  { apply BaseIndexer_init_check. revert Hinit. unfold BaseIndexer_init, bind, now.
    destruct (check_fields schema _) as [[]|e]; [done|discriminate]. }
  apply BaseIndexer_init_ok in Hinit as (_ & Hts & _ & _ & Hf).
  split_and!.
  - exact Hts.
  - intros name f Hname. rewrite Hf in Hname.
    destruct (_ !! name) as [g|] eqn:Hg; [|discriminate].
    injection Hname as <-. simpl.
    apply Hknown.
    destruct (decide (name = "meta_index_timestamp_dt")) as [->|Hn1]; [auto|].
    rewrite lookup_insert_ne in Hg by done.
    destruct (decide (name = "meta_type_s")) as [->|Hn2]; [auto|].
    rewrite lookup_insert_ne in Hg by done. left. eauto.
  - intros name [->| ->]; rewrite Hf.
    + rewrite lookup_insert_ne, lookup_insert_eq by done.
      eexists. split; [reflexivity|]. by simpl.
    + rewrite lookup_insert_eq.
      eexists. split; [reflexivity|]. by simpl.
  - intros name Hn1 Hn2. rewrite Hf.
    rewrite !lookup_insert_ne by done.
    by destruct (base !! name).
Qed.

(** ** Attribute paths *)

Lemma str_split_nonempty sep s : str_split sep s ≠ [].
Proof.
  destruct s as [|a rest]; simpl; [done|].
  destruct (Ascii.eqb a sep); [done|]. by destruct (str_split sep rest).
Qed.

Lemma str_join_split sep s : str_join sep (str_split sep s) = s.
Proof.
  induction s as [|a rest IH]; simpl; [done|].
  destruct (Ascii.eqb_spec a sep) as [->|Hne].
  - pose proof (str_split_nonempty sep rest) as Hn.
    simpl. destruct (str_split sep rest) as [|x xs] eqn:Hs; [done|].
    simpl. by rewrite <- IH.
  - pose proof (str_split_nonempty sep rest) as Hn.
    destruct (str_split sep rest) as [|x xs] eqn:Hs; [done|].
    rewrite <- IH. by destruct xs.
Qed.

Lemma str_split_segment sep name rest :
  str_split sep name = [name] ->
  str_split sep (name +:+ String sep rest) = name :: str_split sep rest.
Proof.
  revert rest. induction name as [|a name IH]; intros rest Hwhole; simpl in *.
  - by rewrite Ascii.eqb_refl.
  - destruct (Ascii.eqb a sep) eqn:Ha.
    + pose proof (str_split_nonempty sep name).
      destruct (str_split sep name); [done|discriminate].
    + destruct (str_split sep name) as [|x xs] eqn:Hs.
      * by apply str_split_nonempty in Hs.
      * injection Hwhole as -> ->. by rewrite IH.
Qed.

Lemma str_split_of_join sep names :
  names ≠ [] ->
  Forall (fun name => str_split sep name = [name]) names ->
  str_split sep (str_join sep names) = names.
Proof.
  induction names as [|name rest IH]; intros Hne Hall; [done|].
  apply Forall_cons in Hall as [Hname Hrest].
  destruct rest as [|next rest]; [exact Hname|].
  change (str_join sep (name :: next :: rest))
    with (name +:+ String sep (str_join sep (next :: rest))).
  rewrite str_split_segment by done. f_equal. by apply IH.
Qed.

(** X7.  Joining the segments of a path with the
    separator gives the path back, and a path joined from segments that
    hold no separator splits into these segments. *)
Theorem str_split_join sep :
  (forall s, str_join sep (str_split sep s) = s) /\
  (forall names,
     names ≠ [] ->
     Forall (fun name => str_split sep name = [name]) names ->
     str_split sep (str_join sep names) = names).
Proof. split; [apply str_join_split | apply str_split_of_join]. Qed.

(** X8.  Walking a path is walking its first
    segments and then, from the value reached, the others; a failure on
    the way is the failure of the whole walk. *)
Theorem walk_app path names1 names2 v :
  walk path (names1 ++ names2) v =
  match walk path names1 v with
  | Ok u => walk path names2 u
  | Raise e => Raise e
  end.
Proof.
  revert v. induction names1 as [|name rest IH]; intros v; simpl; [done|].
  destruct v; try done;
    (destruct (get_attribute_or_callable _ name) as [next|e]; [apply IH|done]).
Qed.

(** X9.  A field declared with the
    dotted path of some segments resolves by walking these segments from
    the record, without reading the clock. *)
Theorem resolve_attribute_path self name f record c names :
  names ≠ [] ->
  Forall (fun segment => str_split "." segment = [segment]) names ->
  attribute f = Some (str_join "." names) ->
  resolve self name f record c = (walk (str_join "." names) names record, c).
Proof.
  intros Hne Hall Hattr. unfold resolve. rewrite Hattr.
  by rewrite (str_split_of_join "." names Hne Hall).
Qed.

(** X10.  An attribute that is [None] is the value of
    a path that ends there, but an error for a path that goes on: the
    walk raises [AttributeError], naming the path and the segment it was
    about to get. *)
Theorem walk_through_absent path name v :
  get_attribute_or_callable v name = Ok VNone ->
  v ≠ VNone ->
  walk path [name] v = Ok VNone /\
  forall next rest,
    walk path (name :: next :: rest) v
    = Raise (AttributeError
               ("Record does not contain: " +:+ path +:+ " currently trying to get: " +:+ next)).
Proof.
  intros Hget Hv. simpl. rewrite Hget. by destruct v.
Qed.

(** X11.  If a record can be
    transformed at one moment it can be transformed at any other, and
    the two documents have the same keys and the same values, except
    that a clock reading may stand where another clock reading stood. *)
Theorem transform_same_record self record ca doc ca' :
  transform self record ca = (Ok doc, ca') ->
  forall cb, exists doc' cb',
    transform self record cb = (Ok doc', cb') /\
    forall name,
      doc !! name = doc' !! name \/
      exists t t', doc !! name = Some (VTime t) /\ doc' !! name = Some (VTime t').
Proof.
  intros Hrun cb.
  destruct (transform_anytime _ _ _ _ _ cb Hrun) as (doc' & cb' & Hrun').
  exists doc', cb'. split; [exact Hrun'|].
  intros name. eapply transform_twice; eauto.
Qed.

(** X12.  A field without an attribute path takes its
    value from the method of the instance named after the field, or,
    for a dynamic field, after the name the schema shows for it; a
    method of the subclass is used even under the names of the two
    built-in methods.  The value is written when it is not empty. *)
Theorem transform_computed_field self record name f sf method v c doc c' :
  fields self !! name = Some f ->
  attribute f = None ->
  solr_field f = Some sf ->
  transform_methods self (if dynamic sf then display_name sf name else name) = Some method ->
  method record = Ok v ->
  transform self record c = (Ok doc, c') ->
  doc !! name = if truthy v then Some v else None.
Proof.
  intros Hf Hattr Hsf Hm Hv Hrun.
  assert (Hres : forall cx, resolve self name f record cx = (Ok v, cx)).
  { intros cx. unfold resolve. rewrite Hattr, Hsf.
    destruct (dynamic sf); unfold call_transform; by rewrite Hm, Hv. }
  apply transform_sound in Hrun as [_ Hdoc].
  destruct (Hdoc name) as [_ Hin].
  destruct (Hin f Hf) as [(v' & c2 & c3 & _ & _ & Hr & Hd)|(_ & _ & msg & c2 & Hr)];
    rewrite Hres in Hr; [|discriminate].
  by injection Hr as <- <-.
Qed.

(** ** Batches *)

Section Batches.

Context {B : Type} `{Interface B}.

Lemma transform_all_raises self records record :
  record ∈ records ->
  (forall c, exists e c', transform self record c = (Raise e, c')) ->
  forall c, exists e c', transform_all self records c = (Raise e, c').
Proof.
  intros Hin Hfail. induction records as [|r rest IH]; intros c.
  - by apply elem_of_nil in Hin.
  - simpl. unfold bind.
    destruct (transform self r c) as [[d|e] c1] eqn:Hd; [|eauto].
    apply elem_of_cons in Hin as [->|Hin].
    + destruct (Hfail c) as (e & c' & Hf). congruence.
    + destruct (IH Hin c1) as (e & c' & ->). eauto.
Qed.

(** X13.  [add] transforms every record before it talks
    to the backend: when one record cannot be transformed, [add] raises
    and the backend has received nothing, whatever the other records
    are. *)
Theorem add_all_or_nothing self records commit record c (b : B) :
  record ∈ as_list records ->
  (forall c, exists e c', transform self record c = (Raise e, c')) ->
  exists e c', add self (as_list records) commit (c, b) = (Raise e, (c', b)).
Proof.
  intros Hin Hfail.
  destruct (transform_all_raises self _ record Hin Hfail c) as (e & c' & Hall).
  exists e, c'. unfold add, bind, in_time. simpl. by rewrite Hall.
Qed.

End Batches.

(** X14.  When every record can be
    transformed, [add] makes one add call with the documents of all the
    records, in order, followed by a commit if asked for; [update] makes
    the same add call and always commits, whatever its [commit]
    argument. *)
Theorem add_update_calls self records commit c (log : list call) docs c' :
  transform_all self (as_list records) c = (Ok docs, c') ->
  add self (as_list records) commit (c, log)
  = (Ok tt, (c', log ++ AddCall docs :: (if commit then [CommitCall] else []))) /\
  update self (as_list records) commit (c, log)
  = (Ok tt, (c', log ++ [AddCall docs; CommitCall])).
Proof.
  intros Hall. unfold update, add, bind, in_time, call_interface, ret. simpl. rewrite Hall.
  simpl. destruct commit; simpl; rewrite <- ?app_assoc; auto.
Qed.

(** ** Deleting by identifier *)

(** X15.  [delete] computes the identifier of every record
    with the [transform_id] method of the subclass before it talks to the
    backend.  Without this method a delete of any record raises
    [AttributeError] and asks nothing; a delete of no record asks for an
    empty delete.  With it, and when every identifier is computed, there
    is one delete call with the identifiers in order, followed by a
    commit if asked for. *)
Theorem delete_calls self records commit c (log : list ById.request) :
  (transform_methods self "id" = None -> as_list records ≠ [] ->
   ById.delete self records commit (c, log) = (Raise (AttributeError "transform_id"), (c, log))) /\
  (as_list records = [] ->
   ById.delete self records commit (c, log)
   = (Ok tt, (c, log ++ ById.DeleteIds [] ::
                   (if commit then [ById.Issued CommitCall] else [])))) /\
  (forall method ids,
     transform_methods self "id" = Some method ->
     Forall2 (fun r i => method r = Ok i) (as_list records) ids ->
     ById.delete self records commit (c, log)
     = (Ok tt, (c, log ++ ById.DeleteIds ids ::
                     (if commit then [ById.Issued CommitCall] else [])))).
Proof.
  split_and!.
  - intros Hno Hne. unfold ById.delete, bind, in_time. simpl.
    destruct (as_list records) as [|r rest]; [done|]. simpl.
    unfold bind, ById.transform_id. by rewrite Hno.
  - intros Hnil. unfold ById.delete. rewrite Hnil.
    unfold bind, in_time, call_interface, ret. simpl.
    destruct commit; simpl; by rewrite <- ?app_assoc.
  - intros method ids Hm Hall.
    assert (Hids : ById.transform_ids self (as_list records) c = (Ok ids, c)).
    { clear log. induction Hall as [|r i rest ids' Hr Hall IH]; simpl; [done|].
      unfold bind, ById.transform_id at 1. rewrite Hm, Hr, IH. reflexivity. }
    unfold ById.delete, bind, in_time, call_interface, ret. simpl. rewrite Hids. simpl.
    destruct commit; simpl; by rewrite <- ?app_assoc.
Qed.

(** X16.  When the identifier of one record cannot
    be computed, [delete] raises and the backend has received nothing. *)
Theorem delete_all_or_nothing {B} `{Interface B} `{ById.InterfaceById B}
    self records commit record c (b : B) :
  record ∈ as_list records ->
  (forall c, exists e, ById.transform_id self record c = (Raise e, c)) ->
  exists e, ById.delete self records commit (c, b) = (Raise e, (c, b)).
Proof.
  intros Hin Hfail.
  assert (Hids : forall l, record ∈ l -> exists e c',
            ById.transform_ids self l c = (Raise e, c') /\ c' = c).
  { intros l Hl. induction l as [|r rest IH]; [by apply elem_of_nil in Hl|].
    simpl. unfold bind.
    destruct (ById.transform_id self r c) as [[i|e] c1] eqn:Hr.
    - assert (c1 = c) as ->.
      { unfold ById.transform_id in Hr. destruct (transform_methods self "id");
          [by inversion Hr|discriminate]. }
      apply elem_of_cons in Hl as [->|Hl].
      + destruct (Hfail c) as (e & He). congruence.
      + destruct (IH Hl) as (e & c' & -> & ->). eauto.
    - exists e, c1. split; [done|].
      unfold ById.transform_id in Hr. destruct (transform_methods self "id");
        inversion Hr; done. }
  destruct (Hids _ Hin) as (e & c' & Hraise & ->).
  exists e. unfold ById.delete, bind, in_time. simpl. by rewrite Hraise.
Qed.

(** ** Chunks of any run *)

Lemma pool_ok_flush st (doc : document) :
  pool_ok st -> fst st mod COMMIT_CHUNK_SIZE = 0 ->
  pool_ok (fst st + 1, [doc]) /\
  (fst st = 0 \/ (0 < fst st /\ length (snd st) = 1000%nat)).
Proof.
  unfold pool_ok, COMMIT_CHUNK_SIZE. simpl. intros (H0 & Hz & Hp) Hmod. split.
  - split_and!; [lia|lia|]. intros _.
    replace (fst st + 1 - 1) with (fst st) by lia. rewrite Hmod. reflexivity.
  - destruct (decide (fst st = 0)) as [?|Hne]; [by left|right].
    assert (Hpos : 0 < fst st) by lia. split; [done|].
    specialize (Hp Hpos).
    assert ((fst st - 1) mod 1000 = 999).
    { revert Hmod. generalize (fst st) Hpos. intros a Ha Hmod.
      Z.div_mod_to_equations. lia. }
    lia.
Qed.

Lemma pool_ok_keep st (doc : document) :
  pool_ok st -> fst st mod COMMIT_CHUNK_SIZE ≠ 0 ->
  pool_ok (fst st + 1, snd st ++ [doc]).
Proof.
  unfold pool_ok, COMMIT_CHUNK_SIZE. simpl. intros (H0 & Hz & Hp) Hmod.
  assert (Hpos : 0 < fst st).
  { destruct (decide (fst st = 0)) as [Heq|?]; [|lia]. rewrite Heq in Hmod. done. }
  split_and!; [lia|lia|]. intros _. rewrite length_app. simpl.
  specialize (Hp Hpos). replace (fst st + 1 - 1) with (fst st) by lia.
  assert ((fst st - 1) mod 1000 = fst st mod 1000 - 1).
  { revert Hmod. generalize (fst st) Hpos. intros a Ha Hmod.
    Z.div_mod_to_equations. lia. }
  lia.
Qed.

Lemma pool_ok_bounds st :
  pool_ok st -> 0 < fst st -> (1 <= length (snd st) <= 1000)%nat.
Proof.
  unfold pool_ok, COMMIT_CHUNK_SIZE. intros (H0 & Hz & Hp) Hpos. specialize (Hp Hpos).
  assert (0 <= (fst st - 1) mod 1000 < 1000) by (apply Z.mod_pos_bound; lia). lia.
Qed.

(** The add calls of the loop: an empty one before the first record,
    then batches of a thousand. *)
Lemma reindex_loop_batches self records :
  forall st c (log : list call) st' c' log',
    pool_ok st ->
    for_each records (reindex_step self) st (c, log) = (Ok st', (c', log')) ->
    pool_ok st' /\
    exists full,
      Forall (fun batch => length batch = 1000%nat) full /\
      log' = log ++ map AddCall
               (if decide (fst st = 0 /\ records ≠ []) then [] :: full else full).
Proof.
  induction records as [|r rest IH]; intros st c log st' c' log' Hok Hrun; simpl in Hrun.
  - inversion Hrun; subst. split; [done|]. exists []. split; [constructor|].
    rewrite decide_False by (intros [_ ?]; done). simpl. by rewrite app_nil_r.
  - unfold bind in Hrun.
    destruct (reindex_step self st r (c, log)) as [[st1|e] [c1 log1]] eqn:Hstep; [|discriminate].
    apply reindex_step_ok in Hstep as (doc & _ & Hn & Hflush).
    destruct Hflush as [(Hmod & Hadd & Hpool)|(Hmod & -> & Hpool)].
    + simpl in Hadd. injection Hadd as <-.
      destruct (pool_ok_flush st doc Hok Hmod) as [Hok1 Hsize].
      assert (Hst1 : st1 = (fst st + 1, [doc])) by (destruct st1; simpl in *; congruence).
      rewrite Hst1 in Hrun.
      destruct (IH _ _ _ _ _ _ Hok1 Hrun) as (Hok' & full & Hfull & ->).
      split; [done|].
      rewrite decide_False by (simpl; destruct Hok as (? & _); lia).
      destruct Hsize as [Hzero|[Hpos Hlen]].
      * exists full. split; [done|].
        rewrite decide_True by done.
        destruct Hok as (_ & Hempty & _). rewrite (Hempty Hzero).
        simpl. by rewrite <- app_assoc.
      * exists (snd st :: full). split; [by constructor|].
        rewrite decide_False by (intros [? _]; lia).
        simpl. by rewrite <- app_assoc.
    + pose proof (pool_ok_keep st doc Hok Hmod) as Hok1.
      assert (Hst1 : st1 = (fst st + 1, snd st ++ [doc]))
        by (destruct st1; simpl in *; congruence).
      rewrite Hst1 in Hrun.
      destruct (IH _ _ _ _ _ _ Hok1 Hrun) as (Hok' & full & Hfull & ->).
      split; [done|]. exists full. split; [done|].
      rewrite decide_False by (simpl; destruct Hok as (? & _); lia).
      rewrite decide_False; [done|].
      intros [Hzero _]. rewrite Hzero in Hmod. done.
Qed.

Lemma map_AddCall_inj batches1 batches2 :
  map AddCall batches1 = map AddCall batches2 -> batches1 = batches2.
Proof.
  revert batches2. induction batches1 as [|b rest IH]; intros [|b' rest'] Heq;
    try discriminate; [done|].
  simpl in Heq. injection Heq as -> Heq. f_equal. by apply IH.
Qed.

(** X17.  A run over at least one record that
    returns has made, in this order: an empty add call, add calls of
    exactly a thousand documents each, a last add call of between one
    and a thousand documents, one commit and one delete.  The documents
    added are those of all the records, each once and in the order of
    the source, and the run returns the number of records. *)
Theorem reindex_chunks self records c n c' log :
  records ≠ [] ->
  reindex self records (c, []) = (Ok n, (c', log)) ->
  exists full last tag,
    log = AddCall [] :: map AddCall full ++
            [AddCall last; CommitCall;
             DeleteCall (stale tag (index_timestamp self))] /\
    Forall (fun batch => length batch = 1000%nat) full /\
    (1 <= length last <= 1000)%nat /\
    transform_all self records c = (Ok (concat full ++ last), c') /\
    n = Z.of_nat (length records).
Proof.
  intros Hne Hrun. unfold reindex, bind in Hrun.
  destruct (for_each records (reindex_step self) (0, []) (c, ([] : list call)))
    as [[st|e] [c1 log1]] eqn:Hloop; [|discriminate].
  assert (Hok0 : pool_ok (0, ([] : list document))).
  { unfold pool_ok. simpl. split_and!; [lia|done|lia]. }
  destruct (reindex_loop_batches _ _ _ _ _ _ _ _ Hok0 Hloop) as (Hok & full & Hfull & Hlog).
  rewrite decide_True in Hlog by done. simpl in Hlog.
  apply reindex_loop_ok in Hloop as (docs & batches & Hdocs & Hadds & Hcat & Hcount).
  rewrite add_batches_recorder in Hadds. injection Hadds as Hlog'. simpl in Hlog', Hcat, Hcount.
  assert (Hb : batches = [] :: full).
  { apply map_AddCall_inj. simpl. congruence. }
  subst batches. simpl in Hcat.
  assert (Hpos : 0 < fst st).
  { rewrite Hcount. destruct records; [done|]. simpl. lia. }
  pose proof (pool_ok_bounds st Hok Hpos) as Hbounds.
  destruct (snd st) as [|d pool] eqn:Hpool; [simpl in Hbounds; lia|].
  cbn [length Nat.eqb negb] in Hrun.
  unfold call_interface at 1 in Hrun. cbn [fst snd] in Hrun. simpl interface_add in Hrun.
  unfold call_interface at 1 in Hrun. cbn [fst snd] in Hrun. simpl interface_commit in Hrun.
  unfold getitem in Hrun. destruct (_meta self !! "type") as [tag|]; [|discriminate].
  unfold ret at 1, call_interface in Hrun. cbn [fst snd] in Hrun.
  simpl interface_delete_queries in Hrun. unfold ret in Hrun.
  injection Hrun as <- <- <-.
  exists full, (d :: pool), tag. rewrite Hlog. simpl.
  split_and!.
  - rewrite <- !app_assoc. reflexivity.
  - exact Hfull.
  - simpl in Hbounds. lia.
  - simpl in Hbounds. lia.
  - rewrite Hcat. exact Hdocs.
  - lia.
Qed.

(** ** Runs that raise *)

Lemma reindex_step_raises self st record c (log : list call) e c' log' :
  reindex_step self st record (c, log) = (Raise e, (c', log')) ->
  (exists ca, transform self record ca = (Raise e, c')) /\
  (log' = log \/ log' = log ++ [AddCall (snd st)]).
Proof.
  unfold reindex_step, bind.
  destruct (Z.eqb (fst st mod COMMIT_CHUNK_SIZE) 0).
  - unfold call_interface; simpl. unfold ret, in_time; simpl.
    destruct (transform self record c) as [[doc|e0] c1] eqn:Hd; [discriminate|].
    intros Heq; inversion Heq; subst. split; [eauto|auto].
  - unfold ret, in_time; simpl.
    destruct (transform self record c) as [[doc|e0] c1] eqn:Hd; [discriminate|].
    intros Heq; inversion Heq; subst. split; [eauto|auto].
Qed.

Lemma reindex_step_log self st record c (log : list call) st' c' log' :
  reindex_step self st record (c, log) = (Ok st', (c', log')) ->
  log' = log \/ log' = log ++ [AddCall (snd st)].
Proof.
  intros Hstep. apply reindex_step_ok in Hstep as (doc & _ & _ & Hflush).
  destruct Hflush as [(_ & Hadd & _)|(_ & -> & _)]; [|auto].
  simpl in Hadd. injection Hadd as <-. auto.
Qed.

Lemma reindex_loop_raises self records :
  forall st c (log : list call) e c' log',
    for_each records (reindex_step self) st (c, log) = (Raise e, (c', log')) ->
    (exists batches, log' = log ++ map AddCall batches) /\
    exists record ca, record ∈ records /\ transform self record ca = (Raise e, c').
Proof.
  induction records as [|r rest IH]; intros st c log e c' log' Hrun; simpl in Hrun.
  - discriminate.
  - unfold bind in Hrun.
    destruct (reindex_step self st r (c, log)) as [[st1|e1] [c1 log1]] eqn:Hstep.
    + apply reindex_step_log in Hstep.
      apply IH in Hrun as [(batches & ->) (record & ca & Hin & Hfail)]. split.
      * destruct Hstep as [->| ->]; [by exists batches|].
        exists (snd st :: batches). simpl. by rewrite <- app_assoc.
      * exists record, ca. split; [by apply list_elem_of_further|done].
    + inversion Hrun; subst.
      apply reindex_step_raises in Hstep as [(ca & Hfail) Hlog]. split.
      * destruct Hlog as [->| ->]; [exists []; simpl; by rewrite app_nil_r|].
        by exists [snd st].
      * exists r, ca. split; [apply list_elem_of_here|done].
Qed.

(** X18.  A run raises either because a record cannot
    be transformed, and then it has made add calls only, no commit and
    no delete; or because the options hold no [type], and then it has
    made its add calls and its commit, and no delete.  A run that raises
    never asks for a delete. *)
Theorem reindex_raises self records c (log : list call) e c' log' :
  reindex self records (c, log) = (Raise e, (c', log')) ->
  exists batches,
    (log' = log ++ map AddCall batches /\
     exists record ca, record ∈ records /\ transform self record ca = (Raise e, c')) \/
    (log' = log ++ map AddCall batches ++ [CommitCall] /\
     e = KeyError "type" /\ _meta self !! "type" = None).
Proof.
  unfold reindex, bind.
  destruct (for_each records (reindex_step self) (0, []) (c, log))
    as [[st|e0] [c1 log1]] eqn:Hloop.
  - apply reindex_loop_ok in Hloop as (docs & batches & _ & Hadds & _ & _).
    rewrite add_batches_recorder in Hadds. injection Hadds as <-.
    destruct (snd st) as [|d pool]; cbn [length Nat.eqb negb].
    + unfold ret at 1, call_interface at 1. cbn [fst snd]. simpl interface_commit.
      unfold getitem. destruct (_meta self !! "type") as [tag|] eqn:Htag.
      * unfold ret at 1, call_interface. cbn [fst snd]. discriminate.
      * unfold raise. intros Heq; inversion Heq; subst. exists batches. right.
        split; [by rewrite <- app_assoc|auto].
    + unfold call_interface at 1. cbn [fst snd]. simpl interface_add.
      unfold call_interface at 1. cbn [fst snd]. simpl interface_commit.
      unfold getitem. destruct (_meta self !! "type") as [tag|] eqn:Htag.
      * unfold ret at 1, call_interface. cbn [fst snd]. discriminate.
      * unfold raise. intros Heq; inversion Heq; subst.
        exists (batches ++ [d :: pool]). right. split; [|auto].
        rewrite map_app, <- !app_assoc. reflexivity.
  - intros Heq; inversion Heq; subst.
    apply reindex_loop_raises in Hloop as [(batches & ->) Hrec].
    exists batches. left. auto.
Qed.

(** ** The further properties on the concrete indexer *)

Lemma new_class_options_witness :
  let h := snd Sample.article_defined in
  let h' := snd Sample.review_defined in
  let d : gmap string value := {["type" := VStr "review"]} in
  Meta.meta_of h' Sample.Review = Meta.public_items d ∪ inherited_meta h [Sample.Article] /\
  is_Some (Meta.meta_of h' Sample.Review !! "type") /\
  (forall key v, String.prefix "__" key = true -> d !! key = Some v ->
                 Meta.meta_of h' Sample.Review !! key
                 = inherited_meta h [Sample.Article] !! key).
Proof.
  intros h h' d.
  apply (new_class_options [Sample.Article] Sample.review_attrs h Sample.Review h' d).
  - vm_compute. reflexivity.
  - apply (bool_decide_unpack (NoDup _)). vm_compute. exact I.
  - apply list_elem_of_further, list_elem_of_here.
  - vm_compute. reflexivity.
Defined.

Lemma new_class_requires_type_witness :
  fst (Meta.new_class [Meta.Indexer] Cases.typeless_attrs Meta.empty_heap)
  = Raise (Exception
      "Sunburnt indexer requires a type meta to be declared for grouping indices").
Proof.
  apply (new_class_requires_type [Meta.Indexer] Cases.typeless_attrs Meta.empty_heap
           {["label" := VStr "x"; "__doc__" := VStr "about"]}).
  - vm_compute. reflexivity.
  - apply (bool_decide_unpack (NoDup _)). vm_compute. exact I.
  - apply list_elem_of_further, list_elem_of_here.
  - vm_compute. reflexivity.
  - vm_compute. reflexivity.
Defined.

Lemma new_class_fields_witness :
  let h := snd Sample.article_defined in
  let h' := snd Sample.review_defined in
  (forall f, ("subtitle", Meta.AField f) ∈ Sample.review_attrs ->
             Meta.fields_of h' Sample.Review !! "subtitle" = Some f) /\
  ((forall f, ("subtitle", Meta.AField f) ∉ Sample.review_attrs) ->
   Meta.fields_of h' Sample.Review !! "subtitle"
   = inherited_fields h [Sample.Article] !! "subtitle").
Proof.
  intros h h'.
  apply (fun Hparents Hnd Hnew =>
           new_class_fields [Sample.Article] Sample.review_attrs h Sample.Review h'
             Hparents Hnd Hnew "subtitle").
  - vm_compute. reflexivity.
  - apply (bool_decide_unpack (NoDup _)). vm_compute. exact I.
  - vm_compute. reflexivity.
Defined.

Lemma new_class_shares_configuration_witness :
  let h' := snd Sample.review_defined in
  Meta.fields_of h' Sample.Article = Meta.fields_of h' Sample.Review /\
  Meta.meta_of h' Sample.Article = Meta.meta_of h' Sample.Review.
Proof.
  intros h'.
  apply (new_class_shares_configuration Sample.Article Sample.review_attrs
           (snd Sample.article_defined) Sample.Review h' 2%positive 1%positive).
  - vm_compute. reflexivity.
  - vm_compute. reflexivity.
  - vm_compute. reflexivity.
  - vm_compute. reflexivity.
Defined.

Lemma BaseIndexer_init_binds_witness :
  let self := Cases.titled in
  let base : gmap string Field :=
    {["id" := Field_init (Some "id") false; "title" := Field_init None false]} in
  index_timestamp self = readings Sample.clock (tick Sample.clock) /\
  (forall name f, fields self !! name = Some f -> is_Some (solr_field f)) /\
  (forall name, name = "meta_type_s" \/ name = "meta_index_timestamp_dt" ->
     exists f, fields self !! name = Some f /\
       attribute f = None /\ optional f = false /\
       solr_field f = match_field Sample.schema name) /\
  (forall name, name ≠ "meta_type_s" -> name ≠ "meta_index_timestamp_dt" ->
     (fun f => (attribute f, optional f)) <$> fields self !! name
     = (fun f => (attribute f, optional f)) <$> base !! name).
Proof.
  intros self base.
  apply (BaseIndexer_init_binds base {["type" := VStr "titled"]} Cases.methods
           Sample.schema Sample.clock self (snd Cases.titled_made)).
  vm_compute. reflexivity.
Defined.

Lemma resolve_attribute_path_witness :
  let f := Field_init (Some "author.name") false in
  resolve Sample.articles "byline" f Cases.authored Sample.clock
  = (walk (str_join "." ["author"; "name"]) ["author"; "name"] Cases.authored, Sample.clock).
Proof.
  intros f.
  apply (resolve_attribute_path Sample.articles "byline" f Cases.authored Sample.clock
           ["author"; "name"]).
  - discriminate.
  - repeat constructor.
  - reflexivity.
Defined.

Lemma walk_through_absent_witness :
  let author := VObj [("name", Attr (VStr "N")); ("email", Attr VNone)] in
  walk "author.email" ["email"] author = Ok VNone /\
  forall next rest,
    walk "author.email" ("email" :: next :: rest) author
    = Raise (AttributeError
               ("Record does not contain: " +:+ "author.email" +:+
                " currently trying to get: " +:+ next)).
Proof.
  intros author.
  apply (walk_through_absent "author.email" "email" author).
  - reflexivity.
  - discriminate.
Defined.

Lemma transform_same_record_witness :
  let out := transform Sample.articles (Sample.record 1 (VStr "A")) (snd (Sample.make "article")) in
  exists doc' cb',
    transform Sample.articles (Sample.record 1 (VStr "A")) Sample.clock = (Ok doc', cb') /\
    forall name,
      Sample.document_of out !! name = doc' !! name \/
      exists t t', Sample.document_of out !! name = Some (VTime t) /\
                   doc' !! name = Some (VTime t').
Proof.
  intros out.
  apply (fun Hrun =>
           transform_same_record Sample.articles (Sample.record 1 (VStr "A"))
             (snd (Sample.make "article")) (Sample.document_of out) (snd out)
             Hrun Sample.clock).
  vm_compute. reflexivity.
Defined.

Lemma transform_computed_field_witness :
  let out := transform Cases.titled Cases.authored (snd Cases.titled_made) in
  Sample.document_of out !! "title" = if truthy (VStr "T") then Some (VStr "T") else None.
Proof.
  intros out.
  apply (transform_computed_field Cases.titled Cases.authored "title"
           (bind_field Sample.schema "title" (Field_init None false))
           Sample.static_field (fun _ => Ok (VStr "T")) (VStr "T")
           (snd Cases.titled_made) (Sample.document_of out) (snd out)).
  - vm_compute. reflexivity.
  - reflexivity.
  - reflexivity.
  - reflexivity.
  - reflexivity.
  - vm_compute. reflexivity.
Defined.

Lemma blank_cannot_be_transformed c :
  exists e c', transform Sample.articles Cases.blank c = (Raise e, c').
Proof. exists (AttributeError "id"), (advance c). vm_compute. reflexivity. Qed.

Lemma add_all_or_nothing_witness :
  let records := VList [Sample.record 1 (VStr "A"); Cases.blank] in
  exists e c',
    add Sample.articles (as_list records) true (Sample.clock, ([] : list call))
    = (Raise e, (c', [])).
Proof.
  intros records.
  apply (add_all_or_nothing Sample.articles records true Cases.blank Sample.clock
           ([] : list call)).
  - apply list_elem_of_further, list_elem_of_here.
  - apply blank_cannot_be_transformed.
Defined.

Lemma add_update_calls_witness :
  let records := VList (Sample.records 2) in
  let c := snd (Sample.make "article") in
  let out := transform_all Sample.articles (as_list records) c in
  let docs := match fst out with Ok docs => docs | Raise _ => [] end in
  add Sample.articles (as_list records) false (c, [])
  = (Ok tt, (snd out, [] ++ AddCall docs :: (if false then [CommitCall] else []))) /\
  update Sample.articles (as_list records) false (c, [])
  = (Ok tt, (snd out, [] ++ [AddCall docs; CommitCall])).
Proof.
  intros records c out docs.
  apply (add_update_calls Sample.articles records false c [] docs (snd out)).
  vm_compute. reflexivity.
Defined.

Lemma delete_all_or_nothing_witness :
  exists e,
    ById.delete Sample.articles (Sample.record 1 (VStr "A")) true
      (Sample.clock, ([] : list ById.request))
    = (Raise e, (Sample.clock, [])).
Proof.
  apply (delete_all_or_nothing Sample.articles (Sample.record 1 (VStr "A")) true
           (Sample.record 1 (VStr "A")) Sample.clock ([] : list ById.request)).
  - apply list_elem_of_here.
  - intros c. exists (AttributeError "transform_id"). reflexivity.
Defined.

(** A subclass with [transform_id] deletes by the identifiers of the
    records; [BaseIndexer] alone cannot. *)
Example delete_by_identifier :
  ById.delete Cases.titled (VList [Sample.record 1 (VStr "A"); Cases.authored]) true
    (Sample.clock, [])
  = (Ok tt, (Sample.clock, [ById.DeleteIds [VInt 1; VInt 7]; ById.Issued CommitCall])) /\
  ById.delete Sample.articles (Sample.record 1 (VStr "A")) true (Sample.clock, [])
  = (Raise (AttributeError "transform_id"), (Sample.clock, [])).
Proof. split; reflexivity. Qed.

Lemma reindex_chunks_witness :
  let c := snd (Sample.make "article") in
  let out := reindex (B := list call) Sample.articles (Sample.records 2500) (c, []) in
  exists full last tag,
    snd (snd out) = AddCall [] :: map AddCall full ++
            [AddCall last; CommitCall;
             DeleteCall (stale tag (index_timestamp Sample.articles))] /\
    Forall (fun batch => length batch = 1000%nat) full /\
    (1 <= length last <= 1000)%nat /\
    transform_all Sample.articles (Sample.records 2500) c
    = (Ok (concat full ++ last), fst (snd out)) /\
    2500 = Z.of_nat (length (Sample.records 2500)).
Proof.
  intros c out.
  assert (Hn : fst out = Ok 2500) by (vm_compute; reflexivity).
  apply (reindex_chunks Sample.articles (Sample.records 2500) c 2500
           (fst (snd out)) (snd (snd out))).
  - discriminate.
  - change (out = (Ok 2500, (fst (snd out), snd (snd out)))).
    rewrite <- Hn. clearbody out. destruct out as [r [c' log]]. reflexivity.
Defined.

Lemma reindex_raises_witness :
  let c := snd (Sample.make "article") in
  let records := [Sample.record 1 (VStr "A"); Cases.blank] in
  let out := reindex (B := list call) Sample.articles records (c, []) in
  exists batches,
    (snd (snd out) = [] ++ map AddCall batches /\
     exists record ca, record ∈ records /\
       transform Sample.articles record ca = (Raise (AttributeError "id"), fst (snd out))) \/
    (snd (snd out) = [] ++ map AddCall batches ++ [CommitCall] /\
     AttributeError "id" = KeyError "type" /\ _meta Sample.articles !! "type" = None).
Proof.
  intros c records out.
  apply (reindex_raises Sample.articles records c [] (AttributeError "id")
           (fst (snd out)) (snd (snd out))).
  vm_compute. reflexivity.
Defined.
